(** * AgentFlow scheduling core: work items, scheduler, event bus, coordinator

    A shallow embedding of [agentflow/core/types.py], [agentflow/core/task.py]
    and [agentflow/core/orchestrator.py], and the properties of the design
    document stated over it.

    Conventions of the embedding:
    - a Python [int] is a [Z]; a [datetime] is a [Z] (a point on the clock),
      and [datetime.now()] is the argument [now] of the operation that reads
      the clock;
    - a [Task] object lives in a store ([gmap loc Task]); the scheduler queue
      and the lists handed to the coordinator hold references, so that a
      transition made through one reference is seen through all of them;
    - a Python [float] computed by the coordinator is an IEEE 754 double
      ([PrimFloat.float]), and a string is the sequence of its UTF-8 bytes;
    - an operation that can raise returns a [result]. *)

From Stdlib Require Import ZArith QArith Floats DecimalString.
From stdpp Require Import base decidable countable gmap strings list fin_maps sorting.

Local Open Scope string_scope.
Local Open Scope list_scope.
Local Open Scope Z_scope.

(** ** core/types.py *)

Inductive AgentRole :=
  | PROJECT_MANAGER | ARCHITECT | BACKEND_DEVELOPER | FRONTEND_DEVELOPER
  | QA_ENGINEER | DEVOPS_ENGINEER | UI_UX_DESIGNER | DATA_ENGINEER
  | SECURITY_ENGINEER.

Inductive TechStack :=
  | PYTHON_FASTAPI | PYTHON_DJANGO | PYTHON_FLASK | NODEJS_EXPRESS | NODEJS_NESTJS
  | JAVA_SPRING | GO_GIN | CSHARP_DOTNET | PHP_LARAVEL | RUST_ACTIX
  | VUE_JS | REACT_JS | ANGULAR | SVELTE | NEXTJS | NUXTJS
  | FLUTTER | REACT_NATIVE | IONIC
  | POSTGRESQL | MYSQL | MONGODB | REDIS | ELASTICSEARCH | SQLITE
  | DOCKER | KUBERNETES | AWS | AZURE | GCP.

Inductive TaskPriority := LOW | MEDIUM | HIGH | URGENT | CRITICAL.

Inductive TaskStatus :=
  | PENDING | READY | IN_PROGRESS | COMPLETED | FAILED | BLOCKED | CANCELLED.

Inductive EventType :=
  | TASK_CREATED | TASK_STARTED | TASK_COMPLETED | TASK_FAILED | TASK_BLOCKED
  | AGENT_STARTED | AGENT_COMPLETED | AGENT_ERROR | AGENT_REQUEST_HELP
  | COLLABORATION_STARTED | COLLABORATION_COMPLETED | COLLABORATION_CONFLICT
  | PROJECT_STARTED | PROJECT_COMPLETED | SYSTEM_ALERT | PERFORMANCE_WARNING.

#[global] Instance AgentRole_eq_dec : EqDecision AgentRole.
Proof. solve_decision. Defined.
#[global] Instance TechStack_eq_dec : EqDecision TechStack.
Proof. solve_decision. Defined.
#[global] Instance TaskPriority_eq_dec : EqDecision TaskPriority.
Proof. solve_decision. Defined.
#[global] Instance TaskStatus_eq_dec : EqDecision TaskStatus.
Proof. solve_decision. Defined.
#[global] Instance EventType_eq_dec : EqDecision EventType.
Proof. solve_decision. Defined.

Definition role_index (r : AgentRole) : nat :=
  match r with
  | PROJECT_MANAGER => 0 | ARCHITECT => 1 | BACKEND_DEVELOPER => 2
  | FRONTEND_DEVELOPER => 3 | QA_ENGINEER => 4 | DEVOPS_ENGINEER => 5
  | UI_UX_DESIGNER => 6 | DATA_ENGINEER => 7 | SECURITY_ENGINEER => 8
  end%nat.

Definition role_of_index (n : nat) : option AgentRole :=
  match n with
  | 0 => Some PROJECT_MANAGER | 1 => Some ARCHITECT
  | 2 => Some BACKEND_DEVELOPER | 3 => Some FRONTEND_DEVELOPER
  | 4 => Some QA_ENGINEER | 5 => Some DEVOPS_ENGINEER
  | 6 => Some UI_UX_DESIGNER | 7 => Some DATA_ENGINEER
  | 8 => Some SECURITY_ENGINEER | _ => None
  end%nat.

#[global] Program Instance AgentRole_countable : Countable AgentRole :=
  inj_countable role_index role_of_index _.
Next Obligation. by intros []. Qed.

(** [TaskPriority.X.value] *)
Definition priority_value (p : TaskPriority) : Z :=
  match p with LOW => 1 | MEDIUM => 2 | HIGH => 3 | URGENT => 4 | CRITICAL => 5 end.

(** [EventType.X.value] *)
Definition event_type_value (e : EventType) : string :=
  match e with
  | TASK_CREATED => "task_created" | TASK_STARTED => "task_started"
  | TASK_COMPLETED => "task_completed" | TASK_FAILED => "task_failed"
  | TASK_BLOCKED => "task_blocked"
  | AGENT_STARTED => "agent_started" | AGENT_COMPLETED => "agent_completed"
  | AGENT_ERROR => "agent_error" | AGENT_REQUEST_HELP => "agent_request_help"
  | COLLABORATION_STARTED => "collaboration_started"
  | COLLABORATION_COMPLETED => "collaboration_completed"
  | COLLABORATION_CONFLICT => "collaboration_conflict"
  | PROJECT_STARTED => "project_started" | PROJECT_COMPLETED => "project_completed"
  | SYSTEM_ALERT => "system_alert" | PERFORMANCE_WARNING => "performance_warning"
  end.

(** ** Exceptions *)

Inductive exn := AttributeError (attr : string).

Inductive result (A : Type) :=
  | Ok (a : A)
  | Raise (e : exn).
Arguments Ok {A} a.
Arguments Raise {A} e.

Definition rbind {A B} (m : result A) (k : A → result B) : result B :=
  match m with Ok a => k a | Raise e => Raise e end.

Notation "x ←! m ; k" := (rbind m (fun x => k))
  (at level 20, m at level 100, k at level 200, right associativity,
   format "x  ←!  m ;  '/' k").

Definition raises {A} (m : result A) : Prop :=
  match m with Ok _ => False | Raise _ => True end.

(** ** core/task.py: the [Task] dataclass

    All twenty fields, in declaration order: the generated [__eq__] compares
    them all, and the scheduler's duplicate check relies on it.  Dictionary
    values ([Dict[str, Any]]) are strings here; [result_] is the field
    [result]. *)

Record Task := mkTask {
  task_id : string;
  title : string;
  description : string;
  agent_role : AgentRole;
  assigned_agent_id : option string;
  tech_requirements : list TechStack;
  priority : TaskPriority;
  status : TaskStatus;
  dependencies : list string;
  blocks : list string;
  estimated_hours : Z;
  created_at : Z;
  started_at : option Z;
  completed_at : option Z;
  deadline : option Z;
  context : gmap string string;
  result_ : gmap string string;
  error_message : option string;
  tags : gset string;
  metadata : gmap string string
}.

#[global] Instance Task_eq_dec : EqDecision Task.
Proof. solve_decision. Defined.

Definition set_status (s : TaskStatus) (t : Task) : Task :=
  mkTask (task_id t) (title t) (description t) (agent_role t) (assigned_agent_id t)
         (tech_requirements t) (priority t) s (dependencies t) (blocks t)
         (estimated_hours t) (created_at t) (started_at t) (completed_at t) (deadline t)
         (context t) (result_ t) (error_message t) (tags t) (metadata t).

Definition set_started_at (v : option Z) (t : Task) : Task :=
  mkTask (task_id t) (title t) (description t) (agent_role t) (assigned_agent_id t)
         (tech_requirements t) (priority t) (status t) (dependencies t) (blocks t)
         (estimated_hours t) (created_at t) v (completed_at t) (deadline t) (context t)
         (result_ t) (error_message t) (tags t) (metadata t).

Definition set_completed_at (v : option Z) (t : Task) : Task :=
  mkTask (task_id t) (title t) (description t) (agent_role t) (assigned_agent_id t)
         (tech_requirements t) (priority t) (status t) (dependencies t) (blocks t)
         (estimated_hours t) (created_at t) (started_at t) v (deadline t) (context t)
         (result_ t) (error_message t) (tags t) (metadata t).

Definition set_assigned_agent_id (v : option string) (t : Task) : Task :=
  mkTask (task_id t) (title t) (description t) (agent_role t) v (tech_requirements t)
         (priority t) (status t) (dependencies t) (blocks t) (estimated_hours t)
         (created_at t) (started_at t) (completed_at t) (deadline t) (context t)
         (result_ t) (error_message t) (tags t) (metadata t).

Definition set_context (c : gmap string string) (t : Task) : Task :=
  mkTask (task_id t) (title t) (description t) (agent_role t) (assigned_agent_id t)
         (tech_requirements t) (priority t) (status t) (dependencies t) (blocks t)
         (estimated_hours t) (created_at t) (started_at t) (completed_at t) (deadline t)
         c (result_ t) (error_message t) (tags t) (metadata t).

Definition set_result (r : gmap string string) (t : Task) : Task :=
  mkTask (task_id t) (title t) (description t) (agent_role t) (assigned_agent_id t)
         (tech_requirements t) (priority t) (status t) (dependencies t) (blocks t)
         (estimated_hours t) (created_at t) (started_at t) (completed_at t) (deadline t)
         (context t) r (error_message t) (tags t) (metadata t).

Definition set_error_message (m : option string) (t : Task) : Task :=
  mkTask (task_id t) (title t) (description t) (agent_role t) (assigned_agent_id t)
         (tech_requirements t) (priority t) (status t) (dependencies t) (blocks t)
         (estimated_hours t) (created_at t) (started_at t) (completed_at t) (deadline t)
         (context t) (result_ t) m (tags t) (metadata t).

Definition set_dependencies (d : list string) (t : Task) : Task :=
  mkTask (task_id t) (title t) (description t) (agent_role t) (assigned_agent_id t)
         (tech_requirements t) (priority t) (status t) d (blocks t) (estimated_hours t)
         (created_at t) (started_at t) (completed_at t) (deadline t) (context t)
         (result_ t) (error_message t) (tags t) (metadata t).

(** Truthiness of [Optional[str]] and of [str]: [None] and [""] are falsy. *)
Definition truthy_opt_str (o : option string) : bool :=
  match o with Some s => negb (String.eqb s "") | None => false end.
Definition truthy_str (s : string) : bool := negb (String.eqb s "").

(** [self._completed_dependencies]: the dataclass declares no such field and
    nothing in the package assigns it, so the attribute lookup raises. *)
Definition _completed_dependencies (t : Task) : result (list string) :=
  Raise (AttributeError "_completed_dependencies").

(** [all(dep in self._completed_dependencies for dep in deps)]: the generator
    body runs once per element, and [all] stops at the first falsy one. *)
Fixpoint all_deps_completed (t : Task) (deps : list string) : result bool :=
  match deps with
  | [] => Ok true
  | dep :: rest =>
      c ←! _completed_dependencies t;
      if bool_decide (dep ∈ c) then all_deps_completed t rest else Ok false
  end.

(** [Task.is_ready]; [and] does not evaluate its right operand when the left
    one is false. *)
Definition is_ready (t : Task) : result bool :=
  if bool_decide (status t = PENDING)
  then all_deps_completed t (dependencies t)
  else Ok false.

(** [Task.is_overdue] *)
Definition is_overdue (now : Z) (t : Task) : bool :=
  match deadline t with
  | Some d =>
      if bool_decide (status t ∉ [COMPLETED; CANCELLED])
      then bool_decide (d < now) else false
  | None => false
  end.

(** [Task.duration] *)
Definition duration (now : Z) (t : Task) : option Z :=
  match started_at t, completed_at t with
  | Some s, Some c => Some (c - s)
  | Some s, None => Some (now - s)
  | None, _ => None
  end.

(** [Task.progress] *)
Definition progress (t : Task) : Q :=
  match status t with
  | PENDING => 0 | READY => 1 # 10 | IN_PROGRESS => 1 # 2 | COMPLETED => 1
  | FAILED => 0 | BLOCKED => 2 # 10 | CANCELLED => 0
  end%Q.

(** [Task.start] *)
Definition start (now : Z) (agent_id : option string) (t : Task) : bool * Task :=
  if bool_decide (status t ≠ PENDING) then (false, t)
  else
    let t1 := set_started_at (Some now) (set_status IN_PROGRESS t) in
    let t2 := if truthy_opt_str agent_id then set_assigned_agent_id agent_id t1 else t1 in
    (true, t2).

(** [Task.complete]; [if result:] is false for [None] and for [{}], and
    [dict.update] lets the argument win on shared keys. *)
Definition complete (now : Z) (res : option (gmap string string)) (t : Task) : bool * Task :=
  if bool_decide (status t ≠ IN_PROGRESS) then (false, t)
  else
    let t1 := set_completed_at (Some now) (set_status COMPLETED t) in
    let t2 := match res with
              | Some r => if bool_decide (r = ∅) then t1 else set_result (r ∪ result_ t1) t1
              | None => t1
              end in
    (true, t2).

(** [Task.fail] *)
Definition fail (now : Z) (msg : string) (t : Task) : bool * Task :=
  if bool_decide (status t ∉ [IN_PROGRESS; READY]) then (false, t)
  else
    (true, set_completed_at (Some now) (set_error_message (Some msg) (set_status FAILED t))).

(** [Task.block] *)
Definition block (reason : string) (t : Task) : bool * Task :=
  if bool_decide (status t ∈ [COMPLETED; CANCELLED; FAILED]) then (false, t)
  else
    let t1 := set_status BLOCKED t in
    (true, set_context (<["block_reason" := reason]> (context t1)) t1).

(** [Task.unblock]; [self.is_ready] is read after the guard, on the task as
    it is then (still [BLOCKED]). *)
Definition unblock (t : Task) : result (bool * Task) :=
  if bool_decide (status t ≠ BLOCKED) then Ok (false, t)
  else
    r ←! is_ready t;
    let t1 := set_status (if r : bool then READY else PENDING) t in
    Ok (true, set_context (delete "block_reason" (context t1)) t1).

(** [Task.cancel] *)
Definition cancel (now : Z) (reason : string) (t : Task) : bool * Task :=
  if bool_decide (status t ∈ [COMPLETED; CANCELLED]) then (false, t)
  else
    let t1 := set_completed_at (Some now) (set_status CANCELLED t) in
    let t2 := if truthy_str reason
              then set_context (<["cancel_reason" := reason]> (context t1)) t1 else t1 in
    (true, t2).

(** [Task.add_dependency] *)
Definition add_dependency (dep : string) (t : Task) : bool * Task :=
  if bool_decide (dep ∉ dependencies t) && bool_decide (dep ≠ task_id t)
  then (true, set_dependencies (dependencies t ++ [dep]) t)
  else (false, t).

(** [AgentRole.X.value], [TaskStatus.X.value] *)
Definition agent_role_value (r : AgentRole) : string :=
  match r with
  | PROJECT_MANAGER => "project_manager" | ARCHITECT => "architect"
  | BACKEND_DEVELOPER => "backend_developer"
  | FRONTEND_DEVELOPER => "frontend_developer"
  | QA_ENGINEER => "qa_engineer" | DEVOPS_ENGINEER => "devops_engineer"
  | UI_UX_DESIGNER => "ui_ux_designer" | DATA_ENGINEER => "data_engineer"
  | SECURITY_ENGINEER => "security_engineer"
  end.

Definition task_status_value (s : TaskStatus) : string :=
  match s with
  | PENDING => "pending" | READY => "ready" | IN_PROGRESS => "in_progress"
  | COMPLETED => "completed" | FAILED => "failed" | BLOCKED => "blocked"
  | CANCELLED => "cancelled"
  end.

(** The dictionary built by [Task.to_dict], one field per key.  Times stay
    clock values (the source prints them with [isoformat]); the enumeration
    members appear by their [value], except [tech_requirements], kept as
    members. *)
Record TaskDict := mkTaskDict {
  d_task_id : string;
  d_title : string;
  d_description : string;
  d_agent_role : string;
  d_assigned_agent_id : option string;
  d_tech_requirements : list TechStack;
  d_priority : Z;
  d_status : string;
  d_dependencies : list string;
  d_blocks : list string;
  d_estimated_hours : Z;
  d_created_at : Z;
  d_started_at : option Z;
  d_completed_at : option Z;
  d_deadline : option Z;
  d_context : gmap string string;
  d_result : gmap string string;
  d_error_message : option string;
  d_tags : gset string;
  d_metadata : gmap string string;
  d_progress : Q;
  d_is_ready : bool;
  d_is_overdue : bool;
  d_duration : option Z
}.

(** [Task.to_dict]: the entries are evaluated in the order written; the only
    one that can raise is ["is_ready"].  A zero [timedelta] is falsy, so a
    zero duration is reported as [None]. *)
Definition to_dict (now : Z) (t : Task) : result TaskDict :=
  let p := progress t in
  r ←! is_ready t;
  Ok (mkTaskDict (task_id t) (title t) (description t)
        (agent_role_value (agent_role t)) (assigned_agent_id t)
        (tech_requirements t) (priority_value (priority t))
        (task_status_value (status t)) (dependencies t) (blocks t)
        (estimated_hours t) (created_at t) (started_at t) (completed_at t)
        (deadline t) (context t) (result_ t) (error_message t) (tags t)
        (metadata t) p r (is_overdue now t)
        (match duration now t with
         | Some d => if bool_decide (d = 0) then None else Some d
         | None => None
         end)).

(** The six state-transition requests of a work item, with their arguments. *)
Inductive Transition :=
  | TStart (agent_id : option string)
  | TComplete (res : option (gmap string string))
  | TFail (msg : string)
  | TBlock (reason : string)
  | TUnblock
  | TCancel (reason : string).

Definition request (now : Z) (tr : Transition) (t : Task) : result (bool * Task) :=
  match tr with
  | TStart a => Ok (start now a t)
  | TComplete r => Ok (complete now r t)
  | TFail m => Ok (fail now m t)
  | TBlock r => Ok (block r t)
  | TUnblock => unblock t
  | TCancel r => Ok (cancel now r t)
  end.

(** ** core/orchestrator.py: [TaskScheduler] *)

(** References to [Task] objects, and the store they point into. *)
Definition loc := nat.
Abbreviation Store := (gmap loc Task).

Record TaskScheduler := mkScheduler {
  task_queue : list loc;
  agent_loads : gmap AgentRole Z;
  max_concurrent_tasks : Z
}.

(** [TaskScheduler.__init__] *)
Definition new_scheduler : TaskScheduler := mkScheduler [] ∅ 3.

Definition set_task_queue (q : list loc) (s : TaskScheduler) : TaskScheduler :=
  mkScheduler q (agent_loads s) (max_concurrent_tasks s).
Definition set_agent_loads (m : gmap AgentRole Z) (s : TaskScheduler) : TaskScheduler :=
  mkScheduler (task_queue s) m (max_concurrent_tasks s).

(** [agent_loads] is a [defaultdict(int)]: reading a missing key yields [0]
    and stores it. *)
Definition load (m : gmap AgentRole Z) (r : AgentRole) : Z := default 0 (m !! r).
Definition loads_touch (m : gmap AgentRole Z) (r : AgentRole) : gmap AgentRole Z :=
  <[r := load m r]> m.

(** [task in self.task_queue]: identity or dataclass equality with an element;
    two references to the same object hold equal values, so comparing the
    values covers both. *)
Definition in_queue (σ : Store) (t : Task) (q : list loc) : bool :=
  bool_decide (Exists (λ r, σ !! r = Some t) q).

(** The operations take the store and the receiver and return the new ones;
    [None] stands for a reference that denotes no object, which no Python
    caller can produce. *)

(** [TaskScheduler.add_task] *)
Definition add_task (r : loc) (σ : Store) (s : TaskScheduler)
  : option (bool * Store * TaskScheduler) :=
  t ← σ !! r;
  if negb (in_queue σ t (task_queue s))
  then Some (true, σ, set_task_queue (task_queue s ++ [r]) s)
  else Some (false, σ, s).

(** [TaskScheduler.assign_task] *)
Definition assign_task (now : Z) (r : loc) (agent_id : option string)
    (σ : Store) (s : TaskScheduler) : option (bool * Store * TaskScheduler) :=
  t ← σ !! r;
  let '(ok, t') := start now agent_id t in
  if ok
  then Some (true, <[r := t']> σ,
             set_agent_loads (<[agent_role t' := load (agent_loads s) (agent_role t') + 1]>
                                (agent_loads s)) s)
  else Some (false, σ, s).

(** [TaskScheduler.complete_task] *)
Definition complete_task (now : Z) (r : loc) (res : option (gmap string string))
    (σ : Store) (s : TaskScheduler) : option (bool * Store * TaskScheduler) :=
  t ← σ !! r;
  let '(ok, t') := complete now res t in
  if ok
  then Some (true, <[r := t']> σ,
             set_agent_loads
               (<[agent_role t' := Z.max 0 (load (agent_loads s) (agent_role t') - 1)]>
                  (agent_loads s)) s)
  else Some (false, σ, s).

(** [list.sort(key=..., reverse=True)]: stable, largest key first; elements
    with equal keys keep the order they had. *)
Fixpoint insert_desc {A} (key : A → Z) (x : A) (l : list A) : list A :=
  match l with
  | [] => [x]
  | y :: l' =>
      if bool_decide (key x < key y) then y :: insert_desc key x l' else x :: y :: l'
  end.

Definition sort_desc {A} (key : A → Z) (l : list A) : list A :=
  foldr (insert_desc key) [] l.

(** The [for task in self.task_queue] loop of [get_ready_tasks].  Both
    [dependencies_met] and [agent_available] are computed for every pending
    task, so the load of its role is read (and, for a role not yet in the
    [defaultdict], stored as [0]) whatever the dependencies say. *)
Fixpoint scan_queue (completed : gset string) (maxc : Z) (q : list loc)
    (σ : Store) (loads : gmap AgentRole Z) (ready : list loc)
  : option (Store * gmap AgentRole Z * list loc) :=
  match q with
  | [] => Some (σ, loads, ready)
  | r :: q' =>
      t ← σ !! r;
      if bool_decide (status t = PENDING) then
        let dependencies_met :=
          forallb (λ dep_id, bool_decide (dep_id ∈ completed)) (dependencies t) in
        let agent_available := bool_decide (load loads (agent_role t) < maxc) in
        let loads' := loads_touch loads (agent_role t) in
        if dependencies_met && agent_available
        then scan_queue completed maxc q' (<[r := set_status READY t]> σ) loads' (ready ++ [r])
        else scan_queue completed maxc q' σ loads' ready
      else scan_queue completed maxc q' σ loads ready
  end.

(** The sort key [t.priority.value] of a reference. *)
Definition with_priority (σ : Store) (r : loc) : option (loc * Z) :=
  t ← σ !! r; Some (r, priority_value (priority t)).

(** [TaskScheduler.get_ready_tasks]; [completed_task_ids or set()] turns
    [None] into the empty set. *)
Definition get_ready_tasks (completed_task_ids : option (gset string))
    (σ : Store) (s : TaskScheduler) : option (list loc * Store * TaskScheduler) :=
  let completed := default ∅ completed_task_ids in
  '(σ', loads', ready) ← scan_queue completed (max_concurrent_tasks s)
                           (task_queue s) σ (agent_loads s) [];
  keyed ← mapM (with_priority σ') ready;
  Some ((sort_desc snd keyed).*1, σ', set_agent_loads loads' s).

(** ** core/orchestrator.py: [EventBus] *)

(** *** Numbers and their formatting

    The two numbers the coordinator computes and prints: an [int] or a
    [float]. *)
Inductive Number :=
  | NInt (z : Z)
  | NFloat (x : float).

(** [float(z)]: exact for [|z| < 2^53], which list lengths and clock
    differences in microseconds are. *)
Definition float_of_int (z : Z) : float :=
  if z <? 0 then PrimFloat.opp (PrimFloat.of_uint63 (Uint63.of_Z (- z)))
  else PrimFloat.of_uint63 (Uint63.of_Z z).

(** [a / b] on two [int]s: the double nearest to the quotient. *)
Definition true_div (a b : Z) : float :=
  PrimFloat.div (float_of_int a) (float_of_int b).

Definition float_of (n : Number) : float :=
  match n with
  | NInt z => float_of_int z
  | NFloat x => x
  end.

(** [n / d] rounded to the nearest integer, a tie going to the even one. *)
Definition round_half_even (n d : Z) : Z :=
  let q := n / d in
  let r := n mod d in
  if 2 * r <? d then q
  else if d <? 2 * r then q + 1
  else if Z.even q then q else q + 1.

(** The double [m * 2^e] in units of [10^-precision], correctly rounded. *)
Definition scaled (precision : nat) (m : positive) (e : Z) : Z :=
  let n := Z.pos m * 10 ^ Z.of_nat precision in
  if 0 <=? e then n * 2 ^ e else round_half_even n (2 ^ (- e)).

Definition decimal (z : Z) : string :=
  NilZero.string_of_uint (N.to_uint (Z.to_N z)).

Fixpoint last_digits (k : nat) (z : Z) : string :=
  match k with
  | O => ""
  | S k' => last_digits k' (z / 10) +:+ decimal (z mod 10)
  end.

Definition fixed (precision : nat) (negative : bool) (t : Z) : string :=
  (if negative then "-" else "")
  +:+ decimal (t / 10 ^ Z.of_nat precision)
  +:+ (if precision is O then "" else "." +:+ last_digits precision t).

(** [f"{x:.<precision>f}"]: the decimal expansion of the double, correctly
    rounded to [precision] places. *)
Definition format_f (precision : nat) (x : float) : string :=
  match Prim2SF x with
  | S754_nan => "nan"
  | S754_infinity s => if s then "-inf" else "inf"
  | S754_zero s => fixed precision s 0
  | S754_finite s m e => fixed precision s (scaled precision m e)
  end.

(** [f"{n:.<precision>%}"]: the number as a [float], times [100] in double
    arithmetic, in fixed notation, followed by the percent sign. *)
Definition format_percent (precision : nat) (n : Number) : string :=
  format_f precision (PrimFloat.mul (float_of n) (float_of_int 100)) +:+ "%".

(** The values found in the [data] dictionary of the events the core
    publishes: a string, a number, or the result dictionary of an item. *)
Inductive Value :=
  | VStr (s : string)
  | VNum (n : Number)
  | VDict (d : gmap string string).

Record AgentEvent := mkEvent {
  event_type : EventType;
  source_agent : AgentRole;
  target_agent : option AgentRole;
  data : gmap string Value;
  session_id : option string;
  timestamp : Z
}.

(** A subscribed callable, known by its identity.  What a callback does is
    outside the core; a call is recorded, and since [publish] catches every
    [Exception] a callback raises, the calls made do not depend on how the
    earlier ones ended.  Callbacks are taken not to call back into the bus. *)
Definition Callback := nat.

(** [subscribers] is a [defaultdict(list)]; a dictionary iterates over its
    keys in the order they were first inserted, hence the association list. *)
Record EventBus := mkEventBus {
  subscribers : list (string * list Callback);
  event_history : list AgentEvent;
  max_history : Z
}.

(** [EventBus.__init__] *)
Definition new_event_bus : EventBus := mkEventBus [] [] 1000.

Definition has_key (k : string) (subs : list (string * list Callback)) : bool :=
  bool_decide (k ∈ subs.*1).

Fixpoint get_subscribers (k : string) (subs : list (string * list Callback))
  : list Callback :=
  match subs with
  | [] => []
  | (k', cbs) :: rest => if String.eqb k k' then cbs else get_subscribers k rest
  end.

Fixpoint append_subscriber (k : string) (cb : Callback)
    (subs : list (string * list Callback)) : list (string * list Callback) :=
  match subs with
  | [] => [(k, [cb])]
  | (k', cbs) :: rest =>
      if String.eqb k k' then (k', cbs ++ [cb]) :: rest
      else (k', cbs) :: append_subscriber k cb rest
  end.

(** [EventBus.subscribe] *)
Definition subscribe (event_pattern : string) (callback : Callback) (b : EventBus)
  : EventBus :=
  mkEventBus (append_subscriber event_pattern callback (subscribers b))
             (event_history b) (max_history b).

(** [s.endswith("*")], [s[:-1]], [s.startswith(p)] *)
Definition endswith (suf s : string) : bool :=
  bool_decide (suffix (String.list_ascii_of_string suf) (String.list_ascii_of_string s)).
Definition drop_last (s : string) : string :=
  String.substring 0 (String.length s - 1) s.
Definition startswith (p s : string) : bool := String.prefix p s.

(** [l[i:]] for a Python [int] [i]: a negative index counts from the end. *)
Definition slice_from {A} (i : Z) (l : list A) : list A :=
  if bool_decide (i < 0)
  then drop (Z.to_nat (Z.max 0 (Z.of_nat (length l) + i))) l
  else drop (Z.to_nat i) l.

(** The three tests that fill [patterns_to_notify], in the order written. *)
Definition patterns_to_notify (ev_type : string) (subs : list (string * list Callback))
  : list string :=
  (if has_key ev_type subs then [ev_type] else [])
  ++ (if has_key "*" subs then ["*"] else [])
  ++ filter (λ pattern, endswith "*" pattern && startswith (drop_last pattern) ev_type)
            subs.*1.

(** One entry per call [callback(event)] made by [publish]: the pattern under
    which the callback was found, and the callback. *)
Definition Invocation : Type := string * Callback.

Definition notifications (ev_type : string) (subs : list (string * list Callback))
  : list Invocation :=
  pattern ← patterns_to_notify ev_type subs;
  callback ← get_subscribers pattern subs;
  [(pattern, callback)].

(** [EventBus.publish]: the bus afterwards, and the calls made, in order. *)
Definition publish (event : AgentEvent) (b : EventBus) : EventBus * list Invocation :=
  let h := event_history b ++ [event] in
  let h' := if bool_decide (max_history b < Z.of_nat (length h))
            then slice_from (- max_history b) h else h in
  (mkEventBus (subscribers b) h' (max_history b),
   notifications (event_type_value (event_type event)) (subscribers b)).

(** How many times [publish] called [cb] for one event. *)
Definition times_called (cb : Callback) (calls : list Invocation) : nat :=
  length (filter (λ c, c.2 = cb) calls).

(** ** core/orchestrator.py: [AgentOrchestrator] *)

(** The [session_info] dictionary; the keys added when the session ends are
    optional fields. *)
Record Session := mkSession {
  s_session_id : string;
  s_project_name : string;
  s_start_time : Z;
  s_status : string;
  s_tasks : list string;
  s_end_time : option Z;
  s_completed_tasks : option Z;
  s_total_tasks : option Z
}.

Record AgentOrchestrator := mkOrchestrator {
  scheduler : TaskScheduler;
  event_bus : EventBus;
  sessions : gmap string Session;
  active_sessions : gset string;
  metrics_tasks_completed : Z
}.

(** [AgentOrchestrator.__init__] (without registered agents) *)
Definition new_orchestrator : AgentOrchestrator :=
  mkOrchestrator new_scheduler new_event_bus ∅ ∅ 0.



(** [success_rate = len(completed_tasks) / len(tasks) if tasks else 0] in
    [execute_project]: the [float] quotient of the two lengths, and the
    [int] [0] of the [else] branch. *)
Definition success_rate {A B} (completed_tasks : list A) (tasks : list B) : Number :=
  if bool_decide (tasks ≠ [])
  then NFloat (true_div (Z.of_nat (length completed_tasks)) (Z.of_nat (length tasks)))
  else NInt 0.

(** [(end_time - start_time).total_seconds()]: the microseconds of the
    difference over [10**6]. *)
Definition total_seconds (microseconds : Z) : float :=
  true_div microseconds 1000000.

(** *** The coordinator's use of the scheduler

    [execute_project] enqueues the items of the project, then, round after
    round, asks [get_ready_tasks] for the eligible ones, has
    [_execute_tasks_parallel] call [assign_task] on each item of that list,
    and reports each outcome with [complete_task] (success) or [Task.fail]
    (failure) on the same items.  The scheduler belongs to the orchestrator
    and outlives a session, and sessions can overlap at their await points;
    so a state records every reference a [get_ready_tasks] call has handed
    out so far, and a step is any one of these calls. *)
Record Coord := mkCoord {
  c_store : Store;
  c_sched : TaskScheduler;
  c_handed : list loc
}.

(** A scheduler just created, with the ceiling set to [m] ([__init__] sets 3),
    over any collection of work items. *)
Definition coord_init (σ : Store) (m : Z) : Coord :=
  mkCoord σ (mkScheduler [] ∅ m) [].

Inductive coord_step (c : Coord) : Coord → Prop :=
  | step_add r b σ' s' :
      add_task r (c_store c) (c_sched c) = Some (b, σ', s') →
      coord_step c (mkCoord σ' s' (c_handed c))
  | step_ready completed ready σ' s' :
      get_ready_tasks completed (c_store c) (c_sched c) = Some (ready, σ', s') →
      coord_step c (mkCoord σ' s' (c_handed c ++ ready))
  | step_assign now r b σ' s' :
      r ∈ c_handed c →
      assign_task now r None (c_store c) (c_sched c) = Some (b, σ', s') →
      coord_step c (mkCoord σ' s' (c_handed c))
  | step_complete now r res b σ' s' :
      r ∈ c_handed c →
      complete_task now r res (c_store c) (c_sched c) = Some (b, σ', s') →
      coord_step c (mkCoord σ' s' (c_handed c))
  | step_fail now r msg t b t' :
      r ∈ c_handed c →
      c_store c !! r = Some t →
      fail now msg t = (b, t') →
      coord_step c (mkCoord (<[r := t']> (c_store c)) (c_sched c) (c_handed c)).

(** The states of a coordinator-driven session. *)
Inductive coord_reachable (σ0 : Store) (m : Z) : Coord → Prop :=
  | reach_init : coord_reachable σ0 m (coord_init σ0 m)
  | reach_step c c' :
      coord_reachable σ0 m c → coord_step c c' → coord_reachable σ0 m c'.

(** *** [execute_project]

    The external executor: given the item as it is when the call is made, a
    result dictionary, or an exception ([_execute_tasks_parallel] catches it
    and keeps its text).  The executors of this package read the item and do
    not change it. *)
Inductive Outcome :=
  | Success (res : gmap string string)
  | Failure (err : string).

Definition Executor := Task → Outcome.

(** [_execute_tasks_parallel]: each coroutine calls [assign_task] (whose
    answer is dropped) and then the executor; [gather] returns the results
    in the order of [tasks].  The coroutines touch different items and add
    to the same counters, so the order in which they are resumed does not
    show in the outcome; they are run here one after the other. *)
Fixpoint execute_tasks_parallel (now : Z) (ex : Executor) (tasks : list loc)
    (σ : Store) (s : TaskScheduler)
  : option (list (loc * Outcome) * Store * TaskScheduler) :=
  match tasks with
  | [] => Some ([], σ, s)
  | r :: rest =>
      '(_, σ1, s1) ← assign_task now r None σ s;
      t ← σ1 !! r;
      '(results, σ2, s2) ← execute_tasks_parallel now ex rest σ1 s1;
      Some ((r, ex t) :: results, σ2, s2)
  end.

(** The [for task, success, result in execution_results] loop: a success is
    reported with [complete_task], whose answer is dropped, and the item is
    appended to [completed_tasks] either way; a failure calls [Task.fail]. *)
Fixpoint report_results (now : Z) (sid : string) (results : list (loc * Outcome))
    (σ : Store) (s : TaskScheduler) (bus : EventBus) (completed_tasks : list loc)
  : option (Store * TaskScheduler * EventBus * list loc * list Invocation) :=
  match results with
  | [] => Some (σ, s, bus, completed_tasks, [])
  | (r, Success res) :: rest =>
      '(_, σ1, s1) ← complete_task now r (Some res) σ s;
      t ← σ1 !! r;
      let ev := mkEvent TASK_COMPLETED (agent_role t) None
                        {[ "task_id" := VStr (task_id t); "result" := VDict res ]}
                        (Some sid) now in
      let '(bus1, calls1) := publish ev bus in
      '(σ2, s2, bus2, completed2, calls2) ←
        report_results now sid rest σ1 s1 bus1 (completed_tasks ++ [r]);
      Some (σ2, s2, bus2, completed2, calls1 ++ calls2)
  | (r, Failure err) :: rest =>
      t ← σ !! r;
      let '(_, t') := fail now err t in
      report_results now sid rest (<[r := t']> σ) s bus completed_tasks
  end.

(** [for iteration in range(max_iterations)]: at most [n] rounds. *)
Fixpoint rounds (n : nat) (now : Z) (ex : Executor) (sid : string) (tasks : list loc)
    (σ : Store) (s : TaskScheduler) (bus : EventBus) (completed_tasks : list loc)
  : option (Store * TaskScheduler * EventBus * list loc * list Invocation) :=
  match n with
  | O => Some (σ, s, bus, completed_tasks, [])
  | S n' =>
      completed ← mapM (σ !!.) completed_tasks;
      let completed_task_ids : gset string := list_to_set (task_id <$> completed) in
      '(ready_tasks, σ1, s1) ← get_ready_tasks (Some completed_task_ids) σ s;
      if bool_decide (ready_tasks = []) then Some (σ1, s1, bus, completed_tasks, [])
      else
        '(results, σ2, s2) ← execute_tasks_parallel now ex ready_tasks σ1 s1;
        '(σ3, s3, bus3, completed3, calls3) ←
          report_results now sid results σ2 s2 bus completed_tasks;
        items ← mapM (σ3 !!.) tasks;
        if bool_decide (length (filter (λ t, status t ≠ CANCELLED) items)
                        ≤ length completed3)%nat
        then Some (σ3, s3, bus3, completed3, calls3)
        else
          '(σ4, s4, bus4, completed4, calls4) ←
            rounds n' now ex sid tasks σ3 s3 bus3 completed3;
          Some (σ4, s4, bus4, completed4, calls3 ++ calls4)
  end.

(** [for task in tasks: self.scheduler.add_task(task)] *)
Fixpoint add_tasks (tasks : list loc) (σ : Store) (s : TaskScheduler)
  : option (Store * TaskScheduler) :=
  match tasks with
  | [] => Some (σ, s)
  | r :: rest => '(_, σ1, s1) ← add_task r σ s; add_tasks rest σ1 s1
  end.

(** The dictionary [execute_project] returns on its normal path, without
    the ["deliverables"] grouping.  The duration and the rate are the
    strings the source prints them into: [f"{execution_time:.2f}秒"] and
    [f"{success_rate:.1%}"]. *)
Record Summary := mkSummary {
  sum_success : bool;
  sum_session_id : string;
  sum_project_name : string;
  sum_execution_time : string;
  sum_tasks_completed : nat;
  sum_total_tasks : nat;
  sum_success_rate : string
}.

(** [AgentOrchestrator.execute_project], from the point where
    [decompose_project] has built the items [tasks] of the project (it
    always builds at least four).  [sid] is the fresh uuid; [start_time] and
    [end_time] are the two clock readings, in microseconds, the duration is
    taken from, [now] stands for the readings in between (time stamps play
    no part in scheduling). *)
Definition execute_project (start_time now end_time : Z) (ex : Executor)
    (sid project_name : string) (tasks : list loc)
    (σ : Store) (o : AgentOrchestrator)
  : option (Summary * Store * AgentOrchestrator * list Invocation) :=
  let max_iterations := 20%nat in
  let '(bus0, calls0) :=
    publish (mkEvent PROJECT_STARTED PROJECT_MANAGER None
               {[ "project_name" := VStr project_name; "session_id" := VStr sid ]}
               (Some sid) start_time) (event_bus o) in
  items ← mapM (σ !!.) tasks;
  let session_info := mkSession sid project_name start_time "executing"
                                (task_id <$> items) None None None in
  '(σ1, s1) ← add_tasks tasks σ (scheduler o);
  '(σ2, s2, bus2, completed_tasks, calls2) ←
    rounds max_iterations now ex sid tasks σ1 s1 bus0 [];
  let execution_time := total_seconds (end_time - start_time) in
  let session_info' :=
    mkSession sid project_name start_time "completed" (task_id <$> items)
              (Some end_time) (Some (Z.of_nat (length completed_tasks)))
              (Some (Z.of_nat (length tasks))) in
  let rate := success_rate completed_tasks tasks in
  let '(bus3, calls3) :=
    publish (mkEvent PROJECT_COMPLETED PROJECT_MANAGER None
               {[ "project_name" := VStr project_name; "success_rate" := VNum rate;
                  "execution_time" := VNum (NFloat execution_time) ]}
               (Some sid) end_time) bus2 in
  Some (mkSummary true sid project_name (format_f 2 execution_time +:+ "秒")
                  (length completed_tasks) (length tasks) (format_percent 1 rate),
        σ2,
        mkOrchestrator s2 bus3 (<[sid := session_info']> (sessions o))
                       (active_sessions o ∖ {[sid]})
                       (metrics_tasks_completed o + Z.of_nat (length completed_tasks)),
        calls0 ++ calls2 ++ calls3).

(** ** Further operations of [core/task.py] *)

Definition set_tags (s : gset string) (t : Task) : Task :=
  mkTask (task_id t) (title t) (description t) (agent_role t) (assigned_agent_id t)
         (tech_requirements t) (priority t) (status t) (dependencies t) (blocks t)
         (estimated_hours t) (created_at t) (started_at t) (completed_at t) (deadline t)
         (context t) (result_ t) (error_message t) s (metadata t).

Definition set_title (s : string) (t : Task) : Task :=
  mkTask (task_id t) s (description t) (agent_role t) (assigned_agent_id t)
         (tech_requirements t) (priority t) (status t) (dependencies t) (blocks t)
         (estimated_hours t) (created_at t) (started_at t) (completed_at t) (deadline t)
         (context t) (result_ t) (error_message t) (tags t) (metadata t).

Definition set_deadline (v : option Z) (t : Task) : Task :=
  mkTask (task_id t) (title t) (description t) (agent_role t) (assigned_agent_id t)
         (tech_requirements t) (priority t) (status t) (dependencies t) (blocks t)
         (estimated_hours t) (created_at t) (started_at t) (completed_at t) v
         (context t) (result_ t) (error_message t) (tags t) (metadata t).

Definition set_created_at (v : Z) (t : Task) : Task :=
  mkTask (task_id t) (title t) (description t) (agent_role t) (assigned_agent_id t)
         (tech_requirements t) (priority t) (status t) (dependencies t) (blocks t)
         (estimated_hours t) v (started_at t) (completed_at t) (deadline t)
         (context t) (result_ t) (error_message t) (tags t) (metadata t).

(** [list.remove(x)]: the first element equal to [x] goes. *)
Fixpoint remove_first (x : string) (l : list string) : list string :=
  match l with
  | [] => []
  | y :: l' => if String.eqb x y then l' else y :: remove_first x l'
  end.

(** [Task.remove_dependency] *)
Definition remove_dependency (dep : string) (t : Task) : bool * Task :=
  if bool_decide (dep ∈ dependencies t)
  then (true, set_dependencies (remove_first dep (dependencies t)) t)
  else (false, t).

(** [Task.add_tag], [Task.remove_tag] *)
Definition add_tag (tag : string) (t : Task) : bool * Task :=
  if bool_decide (tag ∉ tags t) then (true, set_tags (tags t ∪ {[tag]}) t) else (false, t).

Definition remove_tag (tag : string) (t : Task) : bool * Task :=
  if bool_decide (tag ∈ tags t) then (true, set_tags (tags t ∖ {[tag]}) t) else (false, t).

(** [Task.update_context], [Task.update_result]: [dict.update(kwargs)]. *)
Definition update_context (kwargs : gmap string string) (t : Task) : Task :=
  set_context (kwargs ∪ context t) t.

Definition update_result (kwargs : gmap string string) (t : Task) : Task :=
  set_result (kwargs ∪ result_ t) t.

(** [timedelta(hours=24)], the clock counting microseconds as [datetime]
    does. *)
Definition hours_24 : Z := 24 * 3600 * 1000000.

(** [s[:n]] on the UTF-8 bytes of [s]: the bytes of its first [n]
    characters.  A byte [10xxxxxx] continues the character begun before
    it. *)
Definition continuation (c : Ascii.ascii) : bool :=
  let n := Ascii.nat_of_ascii c in (128 <=? n)%nat && (n <? 192)%nat.

Fixpoint prefix_chars (n : nat) (s : string) : string :=
  match s with
  | EmptyString => EmptyString
  | String c rest =>
      if continuation c then String c (prefix_chars n rest)
      else match n with
           | O => EmptyString
           | S n' => String c (prefix_chars n' rest)
           end
  end.

(** [s[:8]] *)
Definition first_8 (s : string) : string := prefix_chars 8 s.

(** [Task.__post_init__]: an empty title and a missing deadline get their
    defaults. *)
Definition post_init (t : Task) : Task :=
  let t1 := if truthy_str (title t) then t
            else set_title ("Task " +:+ first_8 (task_id t)) t in
  match deadline t1 with
  | Some _ => t1
  | None => set_deadline (Some (created_at t1 + hours_24)) t1
  end.

(** [AgentRole(value)], [TaskStatus(value)], [TaskPriority(value)]: the
    member with that value; Python raises [ValueError] when there is none. *)
Definition all_roles : list AgentRole :=
  [PROJECT_MANAGER; ARCHITECT; BACKEND_DEVELOPER; FRONTEND_DEVELOPER; QA_ENGINEER;
   DEVOPS_ENGINEER; UI_UX_DESIGNER; DATA_ENGINEER; SECURITY_ENGINEER].
Definition all_statuses : list TaskStatus :=
  [PENDING; READY; IN_PROGRESS; COMPLETED; FAILED; BLOCKED; CANCELLED].
Definition all_priorities : list TaskPriority := [LOW; MEDIUM; HIGH; URGENT; CRITICAL].

Definition role_of_value (v : string) : option AgentRole :=
  head (filter (λ r, agent_role_value r = v) all_roles).
Definition status_of_value (v : string) : option TaskStatus :=
  head (filter (λ s, task_status_value s = v) all_statuses).
Definition priority_of_value (v : Z) : option TaskPriority :=
  head (filter (λ p, priority_value p = v) all_priorities).

(** [Task.from_dict], on a dictionary that has every key [to_dict] writes
    (the [.get] defaults for missing keys do not come into play).  [now] is
    the clock when the object is constructed: [cls(...)] is not given the
    times, so [created_at] starts as [now] and [__post_init__] derives the
    deadline from it before the four time keys are copied over, each only
    when its value is truthy.  [None] stands for the [ValueError] of an
    unknown enumeration value.  The computed keys ([progress], [is_ready],
    [is_overdue], [duration]) are not read. *)
Definition from_dict (now : Z) (d : TaskDict) : option Task :=
  role ← role_of_value (d_agent_role d);
  prio ← priority_of_value (d_priority d);
  st ← status_of_value (d_status d);
  let task :=
    post_init
      (mkTask (d_task_id d) (d_title d) (d_description d) role (d_assigned_agent_id d)
              (d_tech_requirements d) prio st (d_dependencies d) (d_blocks d)
              (d_estimated_hours d) now None None None
              (d_context d) (d_result d) (d_error_message d) (d_tags d) (d_metadata d)) in
  let task1 := set_created_at (d_created_at d) task in
  let task2 := match d_started_at d with
               | Some v => set_started_at (Some v) task1 | None => task1 end in
  let task3 := match d_completed_at d with
               | Some v => set_completed_at (Some v) task2 | None => task2 end in
  let task4 := match d_deadline d with
               | Some v => set_deadline (Some v) task3 | None => task3 end in
  Some task4.

(** *** [TaskQuery]

    The query object holds a list of tasks and each method replaces or sorts
    it; here each method is the function from the list before to the list
    after. *)
Module TaskQuery.

Definition by_status (s : TaskStatus) (tasks : list Task) : list Task :=
  filter (λ t, status t = s) tasks.
Definition by_agent (r : AgentRole) (tasks : list Task) : list Task :=
  filter (λ t, agent_role t = r) tasks.
Definition by_priority (p : TaskPriority) (tasks : list Task) : list Task :=
  filter (λ t, priority t = p) tasks.
Definition by_tech (ts : TechStack) (tasks : list Task) : list Task :=
  filter (λ t, ts ∈ tech_requirements t) tasks.
Definition by_tag (tag : string) (tasks : list Task) : list Task :=
  filter (λ t, tag ∈ tags t) tasks.

(** [TaskQuery.ready_to_execute]: the comprehension reads [is_ready] of each
    task in turn and stops at the first that raises. *)
Fixpoint ready_to_execute (tasks : list Task) : result (list Task) :=
  match tasks with
  | [] => Ok []
  | t :: rest =>
      r ←! is_ready t;
      kept ←! ready_to_execute rest;
      Ok (if r : bool then t :: kept else kept)
  end.

(** [TaskQuery.overdue] *)
Definition overdue (now : Z) (tasks : list Task) : list Task :=
  filter (λ t, is_overdue now t = true) tasks.

(** [list.sort(key=...)] without [reverse]: stable, smallest key first. *)
Fixpoint insert_asc {A} (key : A → Z) (x : A) (l : list A) : list A :=
  match l with
  | [] => [x]
  | y :: l' =>
      if bool_decide (key y < key x) then y :: insert_asc key x l' else x :: y :: l'
  end.

Definition sort_asc {A} (key : A → Z) (l : list A) : list A :=
  foldr (insert_asc key) [] l.

(** [TaskQuery.sort_by_priority], [TaskQuery.sort_by_created] *)
Definition sort_by_priority (reverse : bool) (tasks : list Task) : list Task :=
  if reverse then sort_desc (λ t, priority_value (priority t)) tasks
  else sort_asc (λ t, priority_value (priority t)) tasks.

Definition sort_by_created (reverse : bool) (tasks : list Task) : list Task :=
  if reverse then sort_desc created_at tasks else sort_asc created_at tasks.

(** [l[:count]]: a negative [count] counts from the end. *)
Definition slice_to {A} (count : Z) (l : list A) : list A :=
  if bool_decide (count < 0)
  then take (Z.to_nat (Z.max 0 (Z.of_nat (length l) + count))) l
  else take (Z.to_nat count) l.

(** [TaskQuery.limit], [TaskQuery.first], [TaskQuery.count] *)
Definition limit (count : Z) (tasks : list Task) : list Task := slice_to count tasks.
Definition first (tasks : list Task) : option Task := head tasks.
Definition count (tasks : list Task) : nat := length tasks.

End TaskQuery.

(** ** Further operations of [core/orchestrator.py] *)

(** [status_counts[task.status.value] += 1] on a [defaultdict(int)]. *)
Definition count_status (counts : gmap string Z) (t : Task) : gmap string Z :=
  <[task_status_value (status t) := default 0 (counts !! task_status_value (status t)) + 1]>
    counts.

(** The dictionary [get_schedule_stats] returns. *)
Record ScheduleStats := mkStats {
  total_tasks : nat;
  status_distribution : gmap string Z;
  stats_agent_loads : gmap AgentRole Z;
  ready_tasks : nat
}.

(** [TaskScheduler.get_schedule_stats] *)
Definition get_schedule_stats (σ : Store) (s : TaskScheduler) : option ScheduleStats :=
  queued ← mapM (σ !!.) (task_queue s);
  Some (mkStats (length (task_queue s))
                (foldl count_status ∅ queued)
                (agent_loads s)
                (length (filter (λ t, status t = READY) queued))).

(** [EventBus.get_recent_events]: [self.event_history[-count:]]. *)
Definition get_recent_events (count : Z) (b : EventBus) : list AgentEvent :=
  slice_from (- count) (event_history b).

(** One entry of a deliverables list. *)
Record Deliverable := mkDeliverable {
  dl_type : string;
  dl_task_id : string;
  dl_content : gmap string string
}.

Record Deliverables := mkDeliverables {
  documents : list Deliverable;
  code_artifacts : list Deliverable;
  test_reports : list Deliverable;
  deployment_configs : list Deliverable
}.

(** The body of the loop of [_generate_deliverables]. *)
Definition add_deliverable (d : Deliverables) (t : Task) : Deliverables :=
  match agent_role t with
  | PROJECT_MANAGER =>
      mkDeliverables (documents d ++ [mkDeliverable "项目规划文档" (task_id t) (result_ t)])
                     (code_artifacts d) (test_reports d) (deployment_configs d)
  | ARCHITECT =>
      mkDeliverables (documents d ++ [mkDeliverable "系统架构文档" (task_id t) (result_ t)])
                     (code_artifacts d) (test_reports d) (deployment_configs d)
  | BACKEND_DEVELOPER | FRONTEND_DEVELOPER =>
      mkDeliverables (documents d)
                     (code_artifacts d
                      ++ [mkDeliverable (agent_role_value (agent_role t) +:+ "代码")
                                        (task_id t) (result_ t)])
                     (test_reports d) (deployment_configs d)
  | QA_ENGINEER =>
      mkDeliverables (documents d) (code_artifacts d)
                     (test_reports d ++ [mkDeliverable "测试报告" (task_id t) (result_ t)])
                     (deployment_configs d)
  | _ => d
  end.

(** [AgentOrchestrator._generate_deliverables] *)
Definition generate_deliverables (completed_tasks : list Task) : Deliverables :=
  foldl add_deliverable (mkDeliverables [] [] [] []) completed_tasks.

(** The last part of [decompose_project] ("设置任务依赖关系"): the items built
    so far are wired together with [add_dependency], whose answer is dropped.
    [tasks] is the Python list of distinct objects; [tasks[i]] is updated in
    place. *)
Definition add_dependency_at (i : nat) (dep : string) (tasks : list Task) : list Task :=
  match tasks !! i with
  | Some t => <[i := (add_dependency dep t).2]> tasks
  | None => tasks
  end.

(** [range(a, b)] *)
Definition range (a b : nat) : list nat := seq a (b - a).

Definition id_at (tasks : list Task) (i : nat) : string :=
  default "" (task_id <$> tasks !! i).

Definition wire_dependencies (tasks : list Task) : list Task :=
  let n := length tasks in
  if bool_decide (2 ≤ n)%nat then
    let tasks1 := add_dependency_at 1 (id_at tasks 0) tasks in
    let tasks2 :=
      foldl (λ ts i, add_dependency_at i (id_at ts 1) ts) tasks1 (range 2 (n - 2)) in
    foldl (λ ts i,
             foldl (λ ts' j, add_dependency_at i (id_at ts' j) ts') ts (range 2 (n - 2)))
          tasks2 (range (n - 2) n)
  else tasks.

(** ** Vocabulary of the properties *)

(** The source states from which each request is accepted, read off the
    guards of [task.py]. *)
Definition accepted_source (tr : Transition) : list TaskStatus :=
  match tr with
  | TStart _ => [PENDING]
  | TComplete _ => [IN_PROGRESS]
  | TFail _ => [IN_PROGRESS; READY]
  | TBlock _ => [PENDING; READY; IN_PROGRESS; BLOCKED]
  | TUnblock => [BLOCKED]
  | TCancel _ => [PENDING; READY; IN_PROGRESS; FAILED; BLOCKED]
  end.

Definition terminal (s : TaskStatus) : Prop := s ∈ [COMPLETED; FAILED; CANCELLED].

#[global] Instance terminal_dec s : Decision (terminal s).
Proof. unfold terminal. apply _. Defined.

(** A work item as [create_task] builds it, up to the fields given. *)
Definition item (id : string) (role : AgentRole) (p : TaskPriority) (st : TaskStatus)
    (deps : list string) : Task :=
  mkTask id ("Task " +:+ id) "" role None [] p st deps [] 1 0 None None (Some 86400)
         ∅ ∅ None ∅ ∅.

(** Every reference handed out by [get_ready_tasks] denotes an item that
    is no longer pending. *)
Definition handed_not_pending (σ : Store) (l : list loc) : Prop :=
  Forall (λ r, ∃ t, σ !! r = Some t ∧ status t ≠ PENDING) l.

Definition loads_zero (loads : gmap AgentRole Z) : Prop :=
  ∀ role, load loads role = 0.

Definition coord_inv (m : Z) (c : Coord) : Prop :=
  handed_not_pending (c_store c) (c_handed c)
  ∧ loads_zero (agent_loads (c_sched c))
  ∧ max_concurrent_tasks (c_sched c) = m.

(** A project of three items, the second and third depending on the first. *)
Definition three_items : Store :=
  {[ 0%nat := item "a" PROJECT_MANAGER MEDIUM PENDING [];
     1%nat := item "b" ARCHITECT HIGH PENDING ["a"];
     2%nat := item "c" ARCHITECT HIGH PENDING ["a"] ]}.

Definition always_succeeds : Executor := λ _, Success {[ "status" := "completed" ]}.

(** What is looked at after a run: the counts and the rate of the summary,
    the status of the items at references 0, 1, 2, and the counters of the
    two roles involved. *)
Definition observe_run (x : Summary * Store * AgentOrchestrator * list Invocation)
  : nat * nat * string * list TaskStatus * list Z :=
  let '(summary, σ, o, _) := x in
  (sum_tasks_completed summary, sum_total_tasks summary,
   sum_success_rate summary,
   omap (λ r, status <$> σ !! r) [0; 1; 2]%nat,
   load (agent_loads (scheduler o)) <$> [PROJECT_MANAGER; ARCHITECT]).

(** ** Vocabulary of the further properties *)

(** The state an accepted request puts the item in. *)
Definition target (tr : Transition) : TaskStatus :=
  match tr with
  | TStart _ => IN_PROGRESS
  | TComplete _ => COMPLETED
  | TFail _ => FAILED
  | TBlock _ => BLOCKED
  | TUnblock => PENDING
  | TCancel _ => CANCELLED
  end.

(** A series of requests on one item, each made at its own time, the
    answers dropped. *)
Fixpoint requests (trs : list (Z * Transition)) (t : Task) : result Task :=
  match trs with
  | [] => Ok t
  | (now, tr) :: rest => answer ←! request now tr t; requests rest answer.2
  end.

(** The time stamps an item carries agree with its state: it has a start
    time when it is running or completed, and a completion time when it is
    in a terminal state. *)
Definition stamped (t : Task) : Prop :=
  (status t ∈ [IN_PROGRESS; COMPLETED] → is_Some (started_at t))
  ∧ (terminal (status t) → is_Some (completed_at t)).

(** A pattern a subscriber can give matches an event kind when it is the
    kind itself or ends in ["*"] after a prefix of the kind. *)
Definition matches (pattern kind : string) : bool :=
  String.eqb pattern kind || (endswith "*" pattern && startswith (drop_last pattern) kind).

(** Any use of the scheduler's four operations, on any items, in any order. *)
Inductive sched_step : Store * TaskScheduler → Store * TaskScheduler → Prop :=
  | api_add_task r b σ s σ' s' :
      add_task r σ s = Some (b, σ', s') → sched_step (σ, s) (σ', s')
  | api_get_ready_tasks completed ready σ s σ' s' :
      get_ready_tasks completed σ s = Some (ready, σ', s') → sched_step (σ, s) (σ', s')
  | api_assign_task now r a b σ s σ' s' :
      assign_task now r a σ s = Some (b, σ', s') → sched_step (σ, s) (σ', s')
  | api_complete_task now r res b σ s σ' s' :
      complete_task now r res σ s = Some (b, σ', s') → sched_step (σ, s) (σ', s').

Definition loads_nonneg (loads : gmap AgentRole Z) : Prop := ∀ role, 0 ≤ load loads role.

(** What holds of the list all through the wiring of [tasks0]: it has the
    same length and the same ids, and an item depends only on items before
    it. *)
Definition wired (tasks0 ts : list Task) : Prop :=
  length ts = length tasks0
  ∧ (∀ k, id_at ts k = id_at tasks0 k)
  ∧ ∀ k t dep, ts !! k = Some t → dep ∈ dependencies t →
               ∃ j, (j < k)%nat ∧ (j < length tasks0)%nat ∧ id_at tasks0 j = dep.

(** The sort key of a reference: [task.priority.value] of the item it
    denotes. *)
Definition priority_at (σ : Store) (r : loc) : Z :=
  default 0 (priority_value ∘ priority <$> σ !! r).

(** Dispatching the items of a list one after the other. *)
Fixpoint assign_all (now : Z) (l : list loc) (σ : Store) (s : TaskScheduler)
  : option (Store * TaskScheduler) :=
  match l with
  | [] => Some (σ, s)
  | r :: rest => '(_, σ1, s1) ← assign_task now r None σ s; assign_all now rest σ1 s1
  end.

(** What [get_ready_tasks] tests of a pending item. *)
Definition eligible (completed : gset string) (s : TaskScheduler) (t : Task) : Prop :=
  status t = PENDING
  ∧ (∀ dep, dep ∈ dependencies t → dep ∈ completed)
  ∧ load (agent_loads s) (agent_role t) < max_concurrent_tasks s.




(** An executor that fails on the item of the given id. *)
Definition fails_on (id : string) : Executor :=
  λ t, if String.eqb (task_id t) id then Failure "failed"
       else Success {[ "status" := "completed" ]}.

(** The counts, the rate and the duration of a summary. *)
Definition observe_summary (x : Summary * Store * AgentOrchestrator * list Invocation)
  : nat * nat * string * string :=
  let '(summary, _, _, _) := x in
  (sum_tasks_completed summary, sum_total_tasks summary,
   sum_success_rate summary, sum_execution_time summary).

(** * Properties *)

(** ** Work-item state machine *)

Lemma set_status_status s t : status (set_status s t) = s.
Proof. reflexivity. Qed.

Lemma is_ready_not_pending t : status t ≠ PENDING → is_ready t = Ok false.
Proof. intros H. unfold is_ready. by rewrite bool_decide_eq_false_2. Qed.

Lemma is_ready_no_dependencies t :
  dependencies t = [] → is_ready t = Ok (bool_decide (status t = PENDING)).
Proof.
  intros H. unfold is_ready. rewrite H. by case_bool_decide.
Qed.

Lemma is_ready_pending_with_dependencies t :
  status t = PENDING → dependencies t ≠ [] →
  is_ready t = Raise (AttributeError "_completed_dependencies").
Proof.
  intros Hs Hd. unfold is_ready. rewrite bool_decide_eq_true_2 by done.
  destruct (dependencies t); [done | reflexivity].
Qed.

(** [unblock] never reaches the undefined attribute: when it reads
    [is_ready] the status is [BLOCKED], and the conjunction stops there. *)
Lemma unblock_blocked t :
  status t = BLOCKED →
  unblock t = Ok (true, set_context (delete "block_reason" (context t)) (set_status PENDING t)).
Proof.
  intros H. unfold unblock. rewrite bool_decide_eq_false_2 by (rewrite H; naive_solver).
  rewrite is_ready_not_pending by (by rewrite H). reflexivity.
Qed.

Ltac case_status t :=
  let E := fresh "Est" in
  destruct (status t) eqn:E.

(** A closed decidable proposition, settled by evaluating its decision. *)
Ltac by_evaluation := apply (bool_decide_unpack _); vm_compute; exact I.
Ltac absurd_by_evaluation H :=
  exfalso; apply (bool_decide_pack _) in H; vm_compute in H; exact H.

Ltac answer_request :=
  eexists _, _; split; [reflexivity|]; split; [reflexivity | done].

Lemma request_accepts_or_rejects (now : Z) (tr : Transition) (t : Task) :
  ∃ b t', request now tr t = Ok (b, t')
          ∧ b = bool_decide (status t ∈ accepted_source tr)
          ∧ (b = false → t' = t).
Proof.
  destruct tr; simpl.
  - unfold start. case_status t; simpl; answer_request.
  - unfold complete. case_status t; simpl; answer_request.
  - unfold fail. case_status t; simpl; answer_request.
  - unfold block. case_status t; simpl; answer_request.
  - destruct (decide (status t = BLOCKED)) as [Hb|Hb].
    + rewrite unblock_blocked by done. rewrite Hb. answer_request.
    + unfold unblock. rewrite bool_decide_eq_true_2 by done.
      exists false, t. split; [done|]. split; [|done].
      symmetry. apply bool_decide_eq_false_2. by rewrite list_elem_of_singleton.
  - unfold cancel. case_status t; simpl; answer_request.
Qed.

(** C2. Each of the six transition requests ([start], [complete], [fail],
    [block], [unblock], [cancel]), on an item in any state, returns a
    boolean without raising; the boolean tells whether the item was in an
    accepted source state, and when it was not the item is returned as it
    was. *)
Theorem transition_request_returns_boolean (now : Z) (tr : Transition) (t : Task) :
  ∃ b t', request now tr t = Ok (b, t')
          ∧ b = bool_decide (status t ∈ accepted_source tr)
          ∧ (b = false → t' = t).
Proof. apply request_accepts_or_rejects. Qed.

(** [cancel] turns a failed item into a cancelled one. *)
Lemma terminal_state_left_by_cancel :
  ¬ (∀ (now : Z) (tr : Transition) (t : Task),
       terminal (status t) → request now tr t = Ok (false, t)).
Proof.
  intros H.
  specialize (H 5 (TCancel "") (item "x" QA_ENGINEER LOW FAILED [])).
  discriminate H. by_evaluation.
Qed.

(** C5 (amended). No request leaves [COMPLETED] or [CANCELLED], and no
    request other than [cancel] leaves [FAILED]: it returns false and the
    item is unchanged.  [cancel] on a [FAILED] item is accepted and moves it
    to [CANCELLED]. *)
Theorem terminal_states_closed_but_failed_cancel
    (now : Z) (tr : Transition) (t : Task) :
  terminal (status t) →
  (status t = FAILED → ∀ reason, tr ≠ TCancel reason) →
  request now tr t = Ok (false, t)
  ∧ ∀ reason, status t = FAILED →
      ∃ t', request now (TCancel reason) t = Ok (true, t') ∧ status t' = CANCELLED.
Proof.
  intros Hterm Hnc. split.
  - destruct (request_accepts_or_rejects now tr t) as (b & t' & Hreq & Hb & Hsame).
    rewrite Hreq. assert (b = false) as Hrej; [|by rewrite Hrej, (Hsame Hrej)].
    rewrite Hb. apply bool_decide_eq_false_2. unfold terminal in Hterm.
    revert Hterm Hnc. destruct tr; simpl; case_status t; intros Hterm Hnc;
      first [ by_evaluation
            | absurd_by_evaluation Hterm
            | exfalso; exact (Hnc eq_refl _ eq_refl) ].
  - intros reason Hf. simpl. unfold cancel. rewrite Hf. simpl.
    destruct (truthy_str reason); eauto.
Qed.

Lemma terminal_states_closed_witness :
  request 9 (TBlock "hold") (item "x" QA_ENGINEER LOW FAILED [])
  = Ok (false, item "x" QA_ENGINEER LOW FAILED []).
Proof.
  apply (terminal_states_closed_but_failed_cancel 9 (TBlock "hold")
           (item "x" QA_ENGINEER LOW FAILED [])).
  - unfold terminal. simpl. by_evaluation.
  - intros _ reason. discriminate.
Defined.

(** ** [is_ready] and [to_dict] *)

Lemma to_dict_raises_iff now t : raises (to_dict now t) ↔ raises (is_ready t).
Proof. unfold to_dict. by destruct (is_ready t). Qed.

(** An item with a dependency that is not pending: [is_ready] is false. *)
Lemma is_ready_with_dependencies_returns :
  ¬ (∀ t : Task,
       (dependencies t = [] → is_ready t = Ok (bool_decide (status t = PENDING)))
       ∧ (dependencies t ≠ [] → raises (is_ready t) ∧ ∀ now, raises (to_dict now t))).
Proof.
  intros H.
  destruct (H (item "b" ARCHITECT HIGH COMPLETED ["a"])) as [_ Hr].
  destruct Hr as [Hr _]; [done|]. exact Hr.
Qed.

(** C10 (amended). For an item without dependencies [is_ready] is true
    exactly when the status is [PENDING].  For an item with dependencies,
    [is_ready] (and with it [to_dict]) raises exactly when the status is
    [PENDING], the one case in which the undefined attribute
    [_completed_dependencies] is read; in every other status it returns
    false and [to_dict] returns a dictionary whose ["is_ready"] is false. *)
Theorem is_ready_defined_unless_pending_with_dependencies (t : Task) :
  (dependencies t = [] → is_ready t = Ok (bool_decide (status t = PENDING)))
  ∧ (dependencies t ≠ [] →
       (status t = PENDING → raises (is_ready t) ∧ ∀ now, raises (to_dict now t))
       ∧ (status t ≠ PENDING →
            is_ready t = Ok false
            ∧ ∀ now, ∃ d, to_dict now t = Ok d ∧ d_is_ready d = false)).
Proof.
  split; [apply is_ready_no_dependencies|].
  intros Hd. split.
  - intros Hs. pose proof (is_ready_pending_with_dependencies t Hs Hd) as Hr.
    split; [by rewrite Hr|]. intros now. apply to_dict_raises_iff. by rewrite Hr.
  - intros Hs. pose proof (is_ready_not_pending t Hs) as Hr. split; [done|].
    intros now. unfold to_dict. rewrite Hr. simpl. eauto.
Qed.

Lemma is_ready_defined_unless_pending_witness :
  is_ready (item "a" PROJECT_MANAGER HIGH PENDING []) = Ok true
  ∧ raises (is_ready (item "b" ARCHITECT HIGH PENDING ["a"]))
  ∧ is_ready (item "b" ARCHITECT HIGH IN_PROGRESS ["a"]) = Ok false.
Proof.
  split; [|split].
  - apply (proj1 (is_ready_defined_unless_pending_with_dependencies
                    (item "a" PROJECT_MANAGER HIGH PENDING []))).
    reflexivity.
  - destruct (is_ready_defined_unless_pending_with_dependencies
                (item "b" ARCHITECT HIGH PENDING ["a"])) as [_ H].
    destruct H as [H _]; [discriminate|]. exact (proj1 (H eq_refl)).
  - destruct (is_ready_defined_unless_pending_with_dependencies
                (item "b" ARCHITECT HIGH IN_PROGRESS ["a"])) as [_ H].
    destruct H as [_ H]; [discriminate|]. apply H. discriminate.
Defined.

(** ** Scheduler: dispatch and outcome report *)

Lemma start_pending now a t :
  status t = PENDING →
  ∃ t', start now a t = (true, t') ∧ status t' = IN_PROGRESS
        ∧ agent_role t' = agent_role t ∧ started_at t' = Some now.
Proof.
  intros H. unfold start. rewrite bool_decide_eq_false_2 by (rewrite H; naive_solver).
  destruct (truthy_opt_str a); eauto.
Qed.

Lemma start_not_pending now a t : status t ≠ PENDING → start now a t = (false, t).
Proof. intros H. unfold start. by rewrite bool_decide_eq_true_2. Qed.

Lemma complete_not_in_progress now res t :
  status t ≠ IN_PROGRESS → complete now res t = (false, t).
Proof. intros H. unfold complete. by rewrite bool_decide_eq_true_2. Qed.

Lemma complete_in_progress now res t :
  status t = IN_PROGRESS →
  ∃ t', complete now res t = (true, t') ∧ status t' = COMPLETED
        ∧ agent_role t' = agent_role t.
Proof.
  intros H. unfold complete. rewrite bool_decide_eq_false_2 by (rewrite H; naive_solver).
  destruct res as [r|]; [destruct (bool_decide (r = ∅))|]; eauto.
Qed.

Lemma load_insert_eq m r v : load (<[r := v]> m) r = v.
Proof. unfold load. by rewrite lookup_insert_eq. Qed.

Lemma load_insert_ne m r r' v : r ≠ r' → load (<[r := v]> m) r' = load m r'.
Proof. intros H. unfold load. by rewrite lookup_insert_ne. Qed.

Lemma assign_task_not_pending now r a σ s t :
  σ !! r = Some t → status t ≠ PENDING → assign_task now r a σ s = Some (false, σ, s).
Proof.
  intros Hr Hs. unfold assign_task. rewrite Hr. simpl. by rewrite start_not_pending.
Qed.

(** The unit test [test_assign_and_complete_task] dispatches a freshly
    created (pending) item, and a ready one is turned down. *)
Lemma assign_task_takes_pending_not_ready :
  ¬ (∀ (now : Z) (r : loc) (a : option string) (σ : Store) (s : TaskScheduler) (t : Task),
       σ !! r = Some t →
       (status t = READY →
          ∃ σ' s' t', assign_task now r a σ s = Some (true, σ', s')
            ∧ σ' !! r = Some t' ∧ status t' = IN_PROGRESS
            ∧ load (agent_loads s') (agent_role t) = load (agent_loads s) (agent_role t) + 1)
       ∧ (status t ≠ READY → assign_task now r a σ s = Some (false, σ, s))).
Proof.
  intros H.
  destruct (H 5 0%nat (Some "agent_001")
              {[ 0%nat := item "x" PROJECT_MANAGER MEDIUM PENDING [] ]}
              new_scheduler (item "x" PROJECT_MANAGER MEDIUM PENDING []))
    as [_ Hrej]; [done|].
  discriminate Hrej. done.
Qed.

(** C1 (amended). For every work item in state [PENDING], [assign_task]
    returns true, moves the item to [IN_PROGRESS] and adds one to the
    in-flight counter of its role, leaving the other counters alone; for
    every item in a state other than [PENDING] and [READY] it returns false
    and leaves the item and the counters unchanged. *)
Theorem assign_task_dispatches_pending
    (now : Z) (r : loc) (a : option string) (σ : Store) (s : TaskScheduler) (t : Task) :
  σ !! r = Some t →
  (status t = PENDING →
     ∃ t' s', assign_task now r a σ s = Some (true, <[r := t']> σ, s')
       ∧ status t' = IN_PROGRESS
       ∧ load (agent_loads s') (agent_role t) = load (agent_loads s) (agent_role t) + 1
       ∧ (∀ role, role ≠ agent_role t → load (agent_loads s') role = load (agent_loads s) role)
       ∧ task_queue s' = task_queue s
       ∧ max_concurrent_tasks s' = max_concurrent_tasks s)
  ∧ (status t ∉ [PENDING; READY] → assign_task now r a σ s = Some (false, σ, s)).
Proof.
  intros Hr. split.
  - intros Hs. destruct (start_pending now a t Hs) as (t' & Hst & Hs' & Hrole & _).
    unfold assign_task. rewrite Hr. simpl. rewrite Hst. rewrite Hrole.
    eexists _, _. split; [reflexivity|]. simpl.
    split; [done|]. split; [apply load_insert_eq|].
    split; [|done]. intros role Hne. by apply load_insert_ne.
  - intros Hs. unfold assign_task. rewrite Hr. simpl.
    rewrite start_not_pending; [done|]. intros E. apply Hs. rewrite E. constructor.
Qed.

Lemma assign_task_dispatches_pending_witness :
  ∃ t' s',
    assign_task 5 0%nat (Some "agent_001")
      {[ 0%nat := item "x" PROJECT_MANAGER MEDIUM PENDING [] ]} new_scheduler
    = Some (true, <[0%nat := t']> {[ 0%nat := item "x" PROJECT_MANAGER MEDIUM PENDING [] ]}, s')
    ∧ status t' = IN_PROGRESS
    ∧ load (agent_loads s') PROJECT_MANAGER = 1.
Proof.
  assert (({[ 0%nat := item "x" PROJECT_MANAGER MEDIUM PENDING [] ]} : Store) !! 0%nat
          = Some (item "x" PROJECT_MANAGER MEDIUM PENDING [])) as Hl
    by (vm_compute; reflexivity).
  destruct (assign_task_dispatches_pending 5 0%nat (Some "agent_001")
              {[ 0%nat := item "x" PROJECT_MANAGER MEDIUM PENDING [] ]} new_scheduler
              (item "x" PROJECT_MANAGER MEDIUM PENDING []) Hl) as [H _].
  destruct (H eq_refl) as (t' & s' & H1 & H2 & H3 & _).
  exists t', s'. split; [exact H1|]. split; [exact H2|]. exact H3.
Defined.

(** C7. [complete_task] on an item that is already in a terminal state
    returns false and changes neither the item (nor any other) nor any
    in-flight counter. *)
Theorem complete_task_idempotent
    (now : Z) (r : loc) (res : option (gmap string string))
    (σ : Store) (s : TaskScheduler) (t : Task) :
  σ !! r = Some t →
  terminal (status t) →
  complete_task now r res σ s = Some (false, σ, s).
Proof.
  intros Hr Ht. unfold complete_task. rewrite Hr. simpl.
  rewrite complete_not_in_progress; [done|].
  intros E. unfold terminal in Ht. rewrite E in Ht. absurd_by_evaluation Ht.
Qed.

Lemma complete_task_idempotent_witness :
  complete_task 9 0%nat (Some {[ "output" := "done" ]})
    {[ 0%nat := item "x" PROJECT_MANAGER MEDIUM COMPLETED [] ]}
    (mkScheduler [0%nat] {[ PROJECT_MANAGER := 0 ]} 3)
  = Some (false, {[ 0%nat := item "x" PROJECT_MANAGER MEDIUM COMPLETED [] ]},
          mkScheduler [0%nat] {[ PROJECT_MANAGER := 0 ]} 3).
Proof.
  apply (complete_task_idempotent 9 0%nat (Some {[ "output" := "done" ]})
           {[ 0%nat := item "x" PROJECT_MANAGER MEDIUM COMPLETED [] ]}
           (mkScheduler [0%nat] {[ PROJECT_MANAGER := 0 ]} 3)
           (item "x" PROJECT_MANAGER MEDIUM COMPLETED [])).
  - vm_compute. reflexivity.
  - unfold terminal. simpl. by_evaluation.
Defined.

(** Reporting twice: after a report that was accepted, a second report on
    the same item is turned down and changes nothing. *)
Lemma complete_task_twice now now' r res res' σ s σ' s' :
  complete_task now r res σ s = Some (true, σ', s') →
  complete_task now' r res' σ' s' = Some (false, σ', s').
Proof.
  unfold complete_task at 1. destruct (σ !! r) as [t|] eqn:Hr; [|done]. simpl.
  destruct (decide (status t = IN_PROGRESS)) as [Hs|Hs].
  - destruct (complete_in_progress now res t Hs) as (t' & Hc & Hs' & _).
    rewrite Hc. intros [= <- <-].
    unfold complete_task. rewrite lookup_insert_eq. simpl.
    rewrite complete_not_in_progress; [done|]. by rewrite Hs'.
  - rewrite complete_not_in_progress by done. discriminate.
Qed.

(** ** Scheduler: enqueueing *)

Lemma add_task_fresh r σ t m :
  σ !! r = Some t →
  add_task r σ (mkScheduler [] ∅ m) = Some (true, σ, mkScheduler [r] ∅ m).
Proof.
  intros H. unfold add_task. rewrite H. reflexivity.
Qed.

(** An item that lists its own id among its dependencies is enqueued. *)
Lemma self_dependent_item_is_enqueued :
  ¬ (∀ (σ : Store) (r : loc) (t : Task),
       σ !! r = Some t → task_id t ∈ dependencies t →
       ∃ σ' s', add_task r σ new_scheduler = Some (false, σ', s')
                ∧ length (task_queue s') = 0%nat).
Proof.
  intros H.
  destruct (H {[ 0%nat := item "x" BACKEND_DEVELOPER MEDIUM PENDING ["x"] ]} 0%nat
              (item "x" BACKEND_DEVELOPER MEDIUM PENDING ["x"]))
    as (σ' & s' & Hadd & _).
  - vm_compute. reflexivity.
  - simpl. constructor.
  - discriminate Hadd.
Qed.

(** C6 (amended). Self-reference is turned down where a dependency is
    added to an item: [add_dependency] with the item's own id returns false
    and leaves the item unchanged.  [add_task] looks only for an equal item
    already in the queue: enqueueing any item, self-dependent or not, into a
    fresh scheduler reports success and the queue then holds that one
    item. *)
Theorem self_reference_rejected_by_add_dependency_only
    (σ : Store) (r : loc) (t : Task) :
  σ !! r = Some t →
  add_dependency (task_id t) t = (false, t)
  ∧ ∃ s', add_task r σ new_scheduler = Some (true, σ, s')
          ∧ task_queue s' = [r].
Proof.
  intros H. split.
  - unfold add_dependency.
    rewrite (bool_decide_eq_false_2 (task_id t ≠ task_id t)) by naive_solver.
    by rewrite andb_false_r.
  - eexists. split; [by apply (add_task_fresh r σ t)|]. reflexivity.
Qed.

Lemma self_reference_rejected_witness :
  add_dependency "x" (item "x" BACKEND_DEVELOPER MEDIUM PENDING ["x"])
  = (false, item "x" BACKEND_DEVELOPER MEDIUM PENDING ["x"])
  ∧ ∃ s', add_task 0%nat {[ 0%nat := item "x" BACKEND_DEVELOPER MEDIUM PENDING ["x"] ]}
            new_scheduler
          = Some (true, {[ 0%nat := item "x" BACKEND_DEVELOPER MEDIUM PENDING ["x"] ]}, s')
          ∧ task_queue s' = [0%nat].
Proof.
  assert (({[ 0%nat := item "x" BACKEND_DEVELOPER MEDIUM PENDING ["x"] ]} : Store) !! 0%nat
          = Some (item "x" BACKEND_DEVELOPER MEDIUM PENDING ["x"])) as Hl
    by (vm_compute; reflexivity).
  exact (self_reference_rejected_by_add_dependency_only _ _ _ Hl).
Defined.

(** ** Event bus *)

(** C3, at the input on which the code departs from it: one callback
    subscribed under ["*"], one [task_started] event published.  The callback
    is called twice, once for the wildcard test and once more because ["*"]
    also passes the prefix test (it ends in ["*"], and every kind starts with
    the empty prefix). *)
Theorem wildcard_subscriber_called_twice :
  let bus := subscribe "*" 0%nat new_event_bus in
  let ev := mkEvent TASK_STARTED PROJECT_MANAGER None ∅ None 0 in
  (publish ev bus).2 = [("*", 0%nat); ("*", 0%nat)]
  ∧ times_called 0%nat (publish ev bus).2 = 2%nat.
Proof. vm_compute. split; reflexivity. Qed.

Lemma startswith_empty s : startswith "" s = true.
Proof. by destruct s. Qed.

Lemma get_subscribers_has_key k subs cb :
  cb ∈ get_subscribers k subs → k ∈ subs.*1.
Proof.
  induction subs as [|[k' cbs] subs IH]; simpl.
  - by intros ?%elem_of_nil.
  - destruct (String.eqb_spec k k') as [->|Hne]; [constructor|].
    intros H. apply list_elem_of_further. by apply IH.
Qed.

Lemma times_called_app cb l1 l2 :
  times_called cb (l1 ++ l2) = (times_called cb l1 + times_called cb l2)%nat.
Proof. unfold times_called. by rewrite filter_app, length_app. Qed.

Lemma times_called_pattern cb pattern cbs :
  cb ∈ cbs → (1 ≤ times_called cb ((λ c, (pattern, c)) <$> cbs))%nat.
Proof.
  unfold times_called. induction 1 as [cb cbs|cb c cbs _ IH]; simpl.
  - rewrite filter_cons_True by done. simpl. lia.
  - rewrite filter_cons. destruct (decide _); simpl; [lia | exact IH].
Qed.

Lemma notify_pattern_calls cb pattern subs patterns :
  pattern ∈ patterns → cb ∈ get_subscribers pattern subs →
  (1 ≤ times_called cb (p ← patterns; c ← get_subscribers p subs; [(p, c)]))%nat.
Proof.
  intros Hp Hcb. induction Hp as [pattern patterns|pattern p patterns _ IH];
    rewrite bind_cons, times_called_app.
  - pose proof (times_called_pattern cb pattern _ Hcb) as H.
    replace (c ← get_subscribers pattern subs; [(pattern, c)])
      with ((λ c, (pattern, c)) <$> get_subscribers pattern subs); [lia|].
    generalize (get_subscribers pattern subs) as l.
    induction l as [|x l IHl]; [done|]. rewrite fmap_cons, bind_cons. simpl. by f_equal.
  - specialize (IH Hcb). lia.
Qed.

(** Whatever else is subscribed and whatever the event, a callback
    subscribed under ["*"] is called at least twice by each [publish]. *)
Lemma wildcard_subscriber_called_at_least_twice (ev : AgentEvent) (b : EventBus) cb :
  cb ∈ get_subscribers "*" (subscribers b) →
  (2 ≤ times_called cb (publish ev b).2)%nat.
Proof.
  intros Hcb. pose proof (get_subscribers_has_key _ _ _ Hcb) as Hkey.
  simpl. unfold notifications, patterns_to_notify.
  set (ty := event_type_value (event_type ev)).
  rewrite bind_app, times_called_app, bind_app, times_called_app.
  unfold has_key at 2. rewrite bool_decide_eq_true_2 by done.
  assert (1 ≤ times_called cb (p ← ["*"]; c ← get_subscribers p (subscribers b); [(p, c)]))%nat
    by (apply (notify_pattern_calls cb "*"); [constructor | done]).
  assert (1 ≤ times_called cb
            (p ← filter (λ pattern, endswith "*" pattern && startswith (drop_last pattern) ty)
                   (subscribers b).*1;
             c ← get_subscribers p (subscribers b); [(p, c)]))%nat.
  { apply (notify_pattern_calls cb "*"); [|done].
    apply list_elem_of_filter. split; [|done].
    change (drop_last "*") with "". rewrite startswith_empty. done. }
  lia.
Qed.

(** ** Session summary *)

(** The rate in the summary [execute_project] returns is printed from the
    [float] quotient of the two counts the summary reports, with one decimal
    place of a percentage. *)
Lemma execute_project_success_rate
    (start_time now end_time : Z) (ex : Executor) (sid project_name : string)
    (tasks : list loc) (σ σ' : Store) (o o' : AgentOrchestrator)
    (summary : Summary) (calls : list Invocation) :
  execute_project start_time now end_time ex sid project_name tasks σ o
  = Some (summary, σ', o', calls) →
  tasks ≠ [] →
  sum_total_tasks summary = length tasks
  ∧ sum_success_rate summary
    = format_percent 1 (NFloat (true_div (Z.of_nat (sum_tasks_completed summary))
                                         (Z.of_nat (sum_total_tasks summary)))).
Proof.
  unfold execute_project. generalize 20%nat as max_iterations. intros max_iterations.
  destruct (publish _ (event_bus o)) as [bus0 calls0].
  destruct (mapM _ tasks) as [items|]; [simpl|done].
  destruct (add_tasks tasks σ (scheduler o)) as [[σ1 s1]|]; [simpl|done].
  destruct (rounds max_iterations now ex sid tasks σ1 s1 bus0 [])
    as [[[[[σ2 s2] bus2] completed] calls2]|]; [simpl|done].
  intros [= <- _ _ _] Hne. simpl. split; [done|].
  unfold success_rate. by rewrite bool_decide_eq_true_2.
Qed.

(** Three items of which the executor fails one: two of three are counted,
    and the summary prints the double nearest to 2/3 as a percentage. *)
Example execute_project_two_of_three :
  observe_summary <$> execute_project 0 1 2500000 (fails_on "c") "s1" "demo" [0; 1; 2]%nat
                        three_items new_orchestrator
  = Some (2%nat, 3%nat, "66.7%", "2.50秒").
Proof. vm_compute. reflexivity. Qed.

(** ** Stopping a session *)



(** ** In-flight counters during a coordinator-driven session *)

Lemma load_touch loads r role : load (loads_touch loads r) role = load loads role.
Proof.
  unfold loads_touch. destruct (decide (r = role)) as [->|Hne].
  - apply load_insert_eq.
  - by apply load_insert_ne.
Qed.

Lemma handed_not_pending_insert σ l r t' :
  status t' ≠ PENDING →
  handed_not_pending σ l → handed_not_pending (<[r := t']> σ) l.
Proof.
  intros Ht' H. unfold handed_not_pending. eapply Forall_impl; [exact H|].
  intros r0 (t & Hl & Hs). destruct (decide (r = r0)) as [->|Hne].
  - exists t'. by rewrite lookup_insert_eq.
  - exists t. by rewrite lookup_insert_ne.
Qed.

(** What the loop of [get_ready_tasks] does to the store, to the loads and
    to the list it builds. *)
Lemma scan_queue_effect completed maxc q :
  ∀ σ loads ready σ' loads' ready',
    scan_queue completed maxc q σ loads ready = Some (σ', loads', ready') →
    (∀ role, load loads' role = load loads role)
    ∧ (∀ r t, σ !! r = Some t → status t ≠ PENDING → σ' !! r = Some t)
    ∧ (∀ r, r ∈ ready' → r ∈ ready ∨ ∃ t, σ' !! r = Some t ∧ status t = READY).
Proof.
  induction q as [|r0 q IH]; intros σ loads ready σ' loads' ready'; simpl.
  - intros [= <- <- <-]. eauto.
  - destruct (σ !! r0) as [t0|] eqn:Hr0; [simpl|done].
    case_bool_decide as Hp.
    + destruct (_ && _).
      * intros Hscan. apply IH in Hscan as (Hload & Hkeep & Hready).
        split; [|split].
        -- intros role. by rewrite Hload, load_touch.
        -- intros r t Hr Hs. apply Hkeep; [|done].
           rewrite lookup_insert_ne; [done|]. intros ->. congruence.
        -- intros r Hin. apply Hready in Hin as [Hin|Hin]; [|by right].
           apply elem_of_app in Hin as [Hin|Hin]; [by left|].
           apply list_elem_of_singleton in Hin as ->. right.
           exists (set_status READY t0). split; [|done].
           apply Hkeep; [by rewrite lookup_insert_eq|done].
      * intros Hscan. apply IH in Hscan as (Hload & Hkeep & Hready).
        split; [|done]. intros role. by rewrite Hload, load_touch.
    + apply IH.
Qed.

Lemma elem_of_insert_desc {A} (key : A → Z) x y l :
  y ∈ insert_desc key x l ↔ y = x ∨ y ∈ l.
Proof.
  induction l as [|z l IH]; simpl.
  - rewrite list_elem_of_singleton, elem_of_nil. tauto.
  - case_bool_decide; rewrite !elem_of_cons; [rewrite IH|]; tauto.
Qed.

Lemma elem_of_sort_desc {A} (key : A → Z) y l : y ∈ sort_desc key l ↔ y ∈ l.
Proof.
  unfold sort_desc. induction l as [|x l IH]; simpl; [done|].
  by rewrite elem_of_insert_desc, elem_of_cons, IH.
Qed.

Lemma with_priority_keys σ l keyed :
  mapM (with_priority σ) l = Some keyed → keyed.*1 = l.
Proof.
  rewrite mapM_Some. induction 1 as [|r k l keyed Hk _ IH]; [done|].
  rewrite fmap_cons, IH. f_equal.
  unfold with_priority in Hk. destruct (σ !! r); simpl in Hk; [|done].
  by injection Hk as <-.
Qed.

Lemma get_ready_tasks_effect completed σ s ready σ' s' :
  get_ready_tasks completed σ s = Some (ready, σ', s') →
  (∀ role, load (agent_loads s') role = load (agent_loads s) role)
  ∧ max_concurrent_tasks s' = max_concurrent_tasks s
  ∧ task_queue s' = task_queue s
  ∧ (∀ r t, σ !! r = Some t → status t ≠ PENDING → σ' !! r = Some t)
  ∧ (∀ r, r ∈ ready → ∃ t, σ' !! r = Some t ∧ status t = READY).
Proof.
  unfold get_ready_tasks.
  destruct (scan_queue _ _ _ _ _ _) as [[[σ1 loads1] ready1]|] eqn:Hscan; [simpl|done].
  destruct (mapM _ _) as [keyed|] eqn:Hkeyed; [simpl|done].
  intros [= <- <- <-].
  apply scan_queue_effect in Hscan as (Hload & Hkeep & Hready).
  apply with_priority_keys in Hkeyed.
  repeat split; try done.
  intros r Hin. apply list_elem_of_fmap in Hin as ([r' k] & -> & Hin).
  apply elem_of_sort_desc in Hin.
  assert (r' ∈ ready1) as Hin1.
  { rewrite <- Hkeyed. apply list_elem_of_fmap. by exists (r', k). }
  apply Hready in Hin1 as [Hnil|H]; [|done]. by apply elem_of_nil in Hnil.
Qed.

Section coordinator.

(** The collection of work items the session starts over, and the ceiling the
    scheduler was created with. *)
Variables (σ0 : Store) (m : Z).

Lemma coord_step_inv c c' : coord_inv m c → coord_step c c' → coord_inv m c'.
Proof.
  intros (Hhanded & Hzero & Hmax) Hstep.
  destruct Hstep as [r b σ' s' Hadd | completed ready σ' s' Hready
                    | now r b σ' s' Hin Hassign | now r res b σ' s' Hin Hcomplete
                    | now r msg t b t' Hin Hr Hfail]; unfold coord_inv; simpl.
  - unfold add_task in Hadd. destruct (c_store c !! r); simpl in Hadd; [|done].
    destruct (negb _); injection Hadd as <- <- <-; done.
  - apply get_ready_tasks_effect in Hready as (Hload & Hmax' & _ & Hkeep & Hnew).
    split; [|split].
    + apply Forall_app. split.
      * eapply Forall_impl; [exact Hhanded|]. intros r (t & Hl & Hs). eauto.
      * apply Forall_forall. intros r Hin. destruct (Hnew r Hin) as (t & Hl & Hs).
        exists t. split; [done|]. by rewrite Hs.
    + intros role. by rewrite Hload.
    + congruence.
  - unfold handed_not_pending in Hhanded. rewrite Forall_forall in Hhanded.
    destruct (Hhanded r Hin) as (t & Hl & Hs).
    unfold assign_task in Hassign. rewrite Hl in Hassign. simpl in Hassign.
    rewrite start_not_pending in Hassign by done.
    injection Hassign as <- <- <-. split; [by apply Forall_forall|done].
  - unfold complete_task in Hcomplete.
    destruct (c_store c !! r) as [t|] eqn:Hl; simpl in Hcomplete; [|done].
    destruct (decide (status t = IN_PROGRESS)) as [Hs|Hs].
    + destruct (complete_in_progress now res t Hs) as (t' & Hc & Hs' & Hrole).
      rewrite Hc in Hcomplete. injection Hcomplete as <- <- <-. simpl.
      split; [|split; [|done]].
      * apply handed_not_pending_insert; [by rewrite Hs'|done].
      * intros role. destruct (decide (agent_role t' = role)) as [<-|Hne].
        -- rewrite load_insert_eq, Hzero. reflexivity.
        -- by rewrite load_insert_ne.
    + rewrite complete_not_in_progress in Hcomplete by done.
      by injection Hcomplete as <- <- <-.
  - split; [|done]. apply handed_not_pending_insert; [|done].
    unfold handed_not_pending in Hhanded. rewrite Forall_forall in Hhanded.
    destruct (Hhanded r Hin) as (t0 & Hl & Hs). rewrite Hr in Hl. injection Hl as ->.
    unfold fail in Hfail. destruct (bool_decide _); by injection Hfail as <- <-.
Qed.

(** In a coordinator-driven session no dispatch is ever accepted: the
    items [get_ready_tasks] hands out are [READY], and [Task.start] takes
    only [PENDING] ones.  So every in-flight counter stays at zero. *)
Lemma coord_reachable_inv c : coord_reachable σ0 m c → coord_inv m c.
Proof.
  induction 1 as [|c c' _ IH Hstep].
  - unfold coord_inv, coord_init, handed_not_pending, loads_zero. simpl.
    split; [constructor|]. split; [|done]. intros role. unfold load.
    by rewrite lookup_empty.
  - by apply (coord_step_inv c).
Qed.

(** *** [execute_project] stays within the coordinator's steps *)

Lemma execute_tasks_parallel_reachable now ex handed tasks :
  ∀ σ s results σ' s',
    coord_reachable σ0 m (mkCoord σ s handed) →
    tasks ⊆ handed →
    execute_tasks_parallel now ex tasks σ s = Some (results, σ', s') →
    coord_reachable σ0 m (mkCoord σ' s' handed) ∧ results.*1 = tasks.
Proof.
  induction tasks as [|r tasks IH]; intros σ s results σ' s' Hreach Hsub; simpl.
  - by intros [= <- <- <-].
  - destruct (assign_task now r None σ s) as [[[b σ1] s1]|] eqn:Hassign; [simpl|done].
    destruct (σ1 !! r) as [t|]; [simpl|done].
    destruct (execute_tasks_parallel now ex tasks σ1 s1)
      as [[[results1 σ2] s2]|] eqn:Hrest; [simpl|done].
    intros [= <- <- <-].
    assert (coord_reachable σ0 m (mkCoord σ1 s1 handed)) as Hreach1.
    { eapply reach_step; [exact Hreach|].
      apply (step_assign (mkCoord σ s handed) now r b σ1 s1); [|exact Hassign].
      apply Hsub. constructor. }
    destruct (IH σ1 s1 results1 σ2 s2 Hreach1) as [Hreach2 Hres]; [|done|].
    { intros x Hx. apply Hsub. by apply list_elem_of_further. }
    split; [done|]. by rewrite fmap_cons, Hres.
Qed.

Lemma report_results_reachable now sid handed results :
  ∀ σ s bus completed σ' s' bus' completed' calls,
    coord_reachable σ0 m (mkCoord σ s handed) →
    results.*1 ⊆ handed →
    report_results now sid results σ s bus completed
    = Some (σ', s', bus', completed', calls) →
    coord_reachable σ0 m (mkCoord σ' s' handed).
Proof.
  induction results as [|[r [res|err]] results IH];
    intros σ s bus completed σ' s' bus' completed' calls Hreach Hsub; simpl.
  - by intros [= <- <- _ _ _].
  - destruct (complete_task now r (Some res) σ s) as [[[b σ1] s1]|] eqn:Hc; [simpl|done].
    destruct (σ1 !! r) as [t|]; [simpl|done].
    destruct (report_results _ _ _ _ _ _ _) as [[[[[σ2 s2] bus2] completed2] calls2]|]
      eqn:Hrest; [simpl|done].
    intros [= <- <- _ _ _].
    eapply IH; [| |exact Hrest].
    + eapply reach_step; [exact Hreach|].
      apply (step_complete (mkCoord σ s handed) now r (Some res) b σ1 s1); [|exact Hc].
      apply Hsub. rewrite fmap_cons. constructor.
    + intros x Hx. apply Hsub. rewrite fmap_cons. by apply list_elem_of_further.
  - destruct (σ !! r) as [t|] eqn:Hr; [simpl|done].
    destruct (fail now err t) as [b t'] eqn:Hf.
    intros Hrest. eapply IH; [| |exact Hrest].
    + eapply reach_step; [exact Hreach|].
      apply (step_fail (mkCoord σ s handed) now r err t b t'); [|exact Hr|exact Hf].
      apply Hsub. rewrite fmap_cons. constructor.
    + intros x Hx. apply Hsub. rewrite fmap_cons. by apply list_elem_of_further.
Qed.

Lemma rounds_reachable now ex sid tasks n :
  ∀ σ s bus completed handed σ' s' bus' completed' calls,
    coord_reachable σ0 m (mkCoord σ s handed) →
    rounds n now ex sid tasks σ s bus completed
    = Some (σ', s', bus', completed', calls) →
    ∃ handed', coord_reachable σ0 m (mkCoord σ' s' handed').
Proof.
  induction n as [|n IH];
    intros σ s bus completed handed σ' s' bus' completed' calls Hreach; simpl.
  - intros [= <- <- _ _ _]. eauto.
  - destruct (mapM _ completed) as [done_items|]; [simpl|done].
    destruct (get_ready_tasks _ σ s) as [[[ready σ1] s1]|] eqn:Hready; [simpl|done].
    assert (coord_reachable σ0 m (mkCoord σ1 s1 (handed ++ ready))) as Hreach1.
    { eapply reach_step; [exact Hreach|].
      exact (step_ready (mkCoord σ s handed) _ ready σ1 s1 Hready). }
    case_bool_decide; [intros [= <- <- _ _ _]; eauto|].
    destruct (execute_tasks_parallel now ex ready σ1 s1)
      as [[[results σ2] s2]|] eqn:Hexec; [simpl|done].
    destruct (execute_tasks_parallel_reachable now ex (handed ++ ready) ready
                σ1 s1 results σ2 s2 Hreach1) as [Hreach2 Hres]; [|done|].
    { intros x Hx. apply elem_of_app. by right. }
    destruct (report_results now sid results σ2 s2 bus completed)
      as [[[[[σ3 s3] bus3] completed3] calls3]|] eqn:Hreport; [simpl|done].
    assert (coord_reachable σ0 m (mkCoord σ3 s3 (handed ++ ready))) as Hreach3.
    { eapply report_results_reachable; [exact Hreach2| |exact Hreport].
      rewrite Hres. intros x Hx. apply elem_of_app. by right. }
    destruct (mapM _ tasks) as [items|]; [simpl|done].
    case_bool_decide; [intros [= <- <- _ _ _]; eauto|].
    destruct (rounds n now ex sid tasks σ3 s3 bus3 completed3)
      as [[[[[σ4 s4] bus4] completed4] calls4]|] eqn:Hrounds; [simpl|done].
    intros [= <- <- _ _ _]. eapply IH; [exact Hreach3|exact Hrounds].
Qed.

Lemma add_tasks_reachable handed tasks :
  ∀ σ s σ' s',
    coord_reachable σ0 m (mkCoord σ s handed) →
    add_tasks tasks σ s = Some (σ', s') →
    coord_reachable σ0 m (mkCoord σ' s' handed).
Proof.
  induction tasks as [|r tasks IH]; intros σ s σ' s' Hreach; simpl.
  - by intros [= <- <-].
  - destruct (add_task r σ s) as [[[b σ1] s1]|] eqn:Hadd; [simpl|done].
    apply IH. eapply reach_step; [exact Hreach|].
    exact (step_add (mkCoord σ s handed) r b σ1 s1 Hadd).
Qed.

(** The scheduler an [execute_project] run leaves behind is a state of a
    coordinator-driven session, whatever the executor answers. *)
Lemma execute_project_reachable start_time now end_time ex sid name tasks
    σ o handed summary σ' o' calls :
  coord_reachable σ0 m (mkCoord σ (scheduler o) handed) →
  execute_project start_time now end_time ex sid name tasks σ o
  = Some (summary, σ', o', calls) →
  ∃ handed', coord_reachable σ0 m (mkCoord σ' (scheduler o') handed').
Proof.
  intros Hreach. unfold execute_project. generalize 20%nat as max_iterations.
  intros max_iterations.
  destruct (publish _ (event_bus o)) as [bus0 calls0].
  destruct (mapM _ tasks) as [items|]; [simpl|done].
  destruct (add_tasks tasks σ (scheduler o)) as [[σ1 s1]|] eqn:Hadd; [simpl|done].
  destruct (rounds max_iterations now ex sid tasks σ1 s1 bus0 [])
    as [[[[[σ2 s2] bus2] completed] calls2]|] eqn:Hrounds; [simpl|done].
  intros [= _ <- <- _]. simpl.
  eapply rounds_reachable; [|exact Hrounds].
  eapply add_tasks_reachable; [exact Hreach|exact Hadd].
Qed.

End coordinator.

(** The three items of [three_items], run by [execute_project] with an
    executor that always succeeds and no subscriber: every item is handed
    out once and counted as completed, none of them ever leaves [READY], and
    the counters end where they began. *)
Example execute_project_three_items :
  observe_run <$> execute_project 0 1 2 always_succeeds "s1" "demo" [0; 1; 2]%nat
                    three_items new_orchestrator
  = Some (3%nat, 3%nat, "100.0%", [READY; READY; READY], [0; 0]).
Proof. vm_compute. reflexivity. Qed.

(** * Further properties *)

(** ** Work items: the transition table, sequences of requests *)

Lemma request_accepted (now : Z) (tr : Transition) (t : Task) :
  status t ∈ accepted_source tr →
  ∃ t', request now tr t = Ok (true, t') ∧ status t' = target tr.
Proof.
  intros Hsrc.
  destruct tr as [a|res|msg|reason| |reason]; simpl in *.
  - apply list_elem_of_singleton in Hsrc.
    destruct (start_pending now a t Hsrc) as (t' & -> & Hs & _). eauto.
  - apply list_elem_of_singleton in Hsrc.
    destruct (complete_in_progress now res t Hsrc) as (t' & -> & Hs & _). eauto.
  - unfold fail. rewrite bool_decide_eq_false_2 by (by intros []). eauto.
  - unfold block. revert Hsrc. case_status t; intros Hsrc; simpl;
      first [ by eauto | absurd_by_evaluation Hsrc ].
  - apply list_elem_of_singleton in Hsrc. rewrite unblock_blocked by done. eauto.
  - unfold cancel. revert Hsrc. case_status t; intros Hsrc; simpl;
      first [ absurd_by_evaluation Hsrc | destruct (truthy_str reason); by eauto ].
Qed.

(** X1. A request made from one of its accepted source states is granted
    and puts the item in the target state of the request: [IN_PROGRESS] for
    [start], [COMPLETED] for [complete], [FAILED] for [fail], [BLOCKED] for
    [block], [CANCELLED] for [cancel], and always [PENDING] (never [READY])
    for [unblock]. *)
Theorem accepted_request_reaches_target (now : Z) (tr : Transition) (t : Task) :
  status t ∈ accepted_source tr →
  ∃ t', request now tr t = Ok (true, t') ∧ status t' = target tr.
Proof. apply request_accepted. Qed.

Lemma accepted_request_reaches_target_witness :
  ∃ t', request 3 TUnblock (item "x" QA_ENGINEER LOW BLOCKED []) = Ok (true, t')
        ∧ status t' = PENDING.
Proof.
  apply (accepted_request_reaches_target 3 TUnblock (item "x" QA_ENGINEER LOW BLOCKED [])).
  simpl. by_evaluation.
Defined.

(** X2. No request touches what identifies and describes an item: its id,
    title, description, role, technical requirements, priority, dependency
    list, blocked list, estimate, creation time, deadline, tags and metadata
    are the same afterwards, whether the request was granted or not. *)
Theorem request_keeps_identity (now : Z) (tr : Transition) (t t' : Task) (b : bool) :
  request now tr t = Ok (b, t') →
  task_id t' = task_id t ∧ title t' = title t ∧ description t' = description t
  ∧ agent_role t' = agent_role t ∧ tech_requirements t' = tech_requirements t
  ∧ priority t' = priority t ∧ dependencies t' = dependencies t
  ∧ blocks t' = blocks t ∧ estimated_hours t' = estimated_hours t
  ∧ created_at t' = created_at t ∧ deadline t' = deadline t
  ∧ tags t' = tags t ∧ metadata t' = metadata t.
Proof.
  destruct tr as [a|res|msg|reason| |reason]; simpl.
  - unfold start. destruct (bool_decide _), (truthy_opt_str a); by intros [= <- <-].
  - unfold complete. destruct (bool_decide _); [by intros [= <- <-]|].
    destruct res as [r|]; [destruct (bool_decide (r = ∅))|]; by intros [= <- <-].
  - unfold fail. destruct (bool_decide _); by intros [= <- <-].
  - unfold block. destruct (bool_decide _); by intros [= <- <-].
  - unfold unblock. destruct (bool_decide _); [by intros [= <- <-]|].
    destruct (is_ready t) as [r|]; simpl; [|done]. by intros [= <- <-].
  - unfold cancel. destruct (bool_decide _), (truthy_str reason); by intros [= <- <-].
Qed.

Lemma request_keeps_identity_witness :
  task_id (cancel 4 "late" (item "x" QA_ENGINEER LOW READY ["a"])).2 = "x"
  ∧ dependencies (cancel 4 "late" (item "x" QA_ENGINEER LOW READY ["a"])).2 = ["a"].
Proof.
  destruct (request_keeps_identity 4 (TCancel "late") (item "x" QA_ENGINEER LOW READY ["a"])
              (cancel 4 "late" (item "x" QA_ENGINEER LOW READY ["a"])).2 true eq_refl)
    as (H1 & _ & _ & _ & _ & _ & H7 & _).
  split; [exact H1 | exact H7].
Defined.

Lemma request_rejected now tr t :
  status t ∉ accepted_source tr → request now tr t = Ok (false, t).
Proof.
  intros Hsrc.
  destruct (request_accepts_or_rejects now tr t) as (b & t' & Hreq & Hb & Hsame).
  rewrite bool_decide_eq_false_2 in Hb by done. subst b.
  by rewrite Hreq, (Hsame eq_refl).
Qed.

(** X3. A completed or cancelled item is frozen: any series of requests, at
    any times, returns it exactly as it was.  A failed item can only stay
    failed or become cancelled. *)
Theorem closed_items_stay_closed (trs : list (Z * Transition)) (t : Task) :
  (status t ∈ [COMPLETED; CANCELLED] → requests trs t = Ok t)
  ∧ (status t = FAILED →
       ∃ t', requests trs t = Ok t' ∧ status t' ∈ [FAILED; CANCELLED]).
Proof.
  assert (∀ trs t, status t ∈ [COMPLETED; CANCELLED] → requests trs t = Ok t) as Hfrozen.
  { clear. induction trs as [|[now tr] trs IH]; intros t Hs; [done|]. simpl.
    rewrite request_rejected; [simpl; by apply IH|].
    revert Hs. destruct tr; simpl; case_status t; intros Hs;
      first [ by_evaluation | absurd_by_evaluation Hs ]. }
  split; [apply Hfrozen|].
  revert t. induction trs as [|[now tr] trs IH]; intros t Hs; simpl.
  - exists t. split; [done|]. rewrite Hs. by_evaluation.
  - destruct (decide (status t ∈ accepted_source tr)) as [Hacc|Hrej].
    + destruct (request_accepted now tr t Hacc) as (t' & -> & Ht). simpl.
      assert (target tr = CANCELLED) as Hc.
      { revert Hacc. rewrite Hs. destruct tr; simpl; intros Hacc;
          first [ done | absurd_by_evaluation Hacc ]. }
      exists t'. rewrite Hfrozen by (rewrite Ht, Hc; by_evaluation).
      split; [done|]. rewrite Ht, Hc. by_evaluation.
    + rewrite request_rejected by done. simpl. by apply IH.
Qed.

Lemma closed_items_stay_closed_witness :
  requests [(1, TStart None); (2, TCancel "no"); (3, TBlock "hold")]
           (item "x" QA_ENGINEER LOW COMPLETED [])
  = Ok (item "x" QA_ENGINEER LOW COMPLETED []).
Proof.
  apply (proj1 (closed_items_stay_closed
                  [(1, TStart None); (2, TCancel "no"); (3, TBlock "hold")]
                  (item "x" QA_ENGINEER LOW COMPLETED []))).
  simpl. by_evaluation.
Defined.

Lemma request_keeps_stamped now tr t b t' :
  request now tr t = Ok (b, t') → stamped t → stamped t'.
Proof.
  unfold stamped, terminal.
  destruct tr as [a|res|msg|reason| |reason]; simpl.
  - unfold start. case_bool_decide as Hg; [by intros [= <- <-]|].
    destruct (truthy_opt_str a); intros [= <- <-] _; simpl;
      (split; [eauto | intros Hx; absurd_by_evaluation Hx]).
  - unfold complete. case_bool_decide as Hs; [by intros [= <- <-]|].
    assert (status t = IN_PROGRESS) as Hs' by (by destruct (decide (status t = IN_PROGRESS))).
    intros Hc [Hstart _].
    assert (is_Some (started_at t)) as Hst by (apply Hstart; rewrite Hs'; by_evaluation).
    destruct res as [r|]; [destruct (bool_decide (r = ∅))|];
      injection Hc as <- <-; simpl; eauto.
  - unfold fail. case_bool_decide as Hg; [by intros [= <- <-]|].
    intros [= <- <-] _. simpl. split; [intros Hx; absurd_by_evaluation Hx | eauto].
  - unfold block. case_bool_decide as Hg; [by intros [= <- <-]|].
    intros [= <- <-] _. simpl. split; intros Hx; absurd_by_evaluation Hx.
  - destruct (decide (status t = BLOCKED)) as [Hb|Hb].
    + rewrite unblock_blocked by done. intros [= <- <-] _. simpl.
      split; intros Hx; absurd_by_evaluation Hx.
    + unfold unblock. rewrite bool_decide_eq_true_2 by done. by intros [= <- <-].
  - unfold cancel. case_bool_decide as Hg; [by intros [= <- <-]|].
    destruct (truthy_str reason); intros [= <- <-] _; simpl;
      (split; [intros Hx; absurd_by_evaluation Hx | eauto]).
Qed.

(** X4. Whatever requests are made of an item, none raises, and an item
    whose time stamps agree with its state keeps them so: a running or
    completed item has a start time, an item in a terminal state has a
    completion time.  So the duration of a completed item is its completion
    time minus its start time, whatever the clock says. *)
Theorem requests_keep_time_stamps (trs : list (Z * Transition)) (t : Task) :
  stamped t →
  ∃ t', requests trs t = Ok t' ∧ stamped t'
        ∧ (status t' = COMPLETED →
             ∃ s c, started_at t' = Some s ∧ completed_at t' = Some c
                    ∧ ∀ now, duration now t' = Some (c - s)).
Proof.
  revert t. induction trs as [|[now tr] trs IH]; intros t Hst; simpl.
  - exists t. split; [done|]. split; [done|]. intros Hs.
    destruct Hst as [Hstart Hdone].
    destruct Hstart as [s Hs1]; [rewrite Hs; by_evaluation|].
    destruct Hdone as [c Hc1]; [unfold terminal; rewrite Hs; by_evaluation|].
    exists s, c. split; [done|]. split; [done|]. intros now'.
    unfold duration. by rewrite Hs1, Hc1.
  - destruct (request_accepts_or_rejects now tr t) as (b & t' & Hreq & _).
    rewrite Hreq. simpl. apply IH. by eapply request_keeps_stamped.
Qed.

Lemma requests_keep_time_stamps_witness :
  ∃ t', requests [(10, TStart (Some "agent_001")); (25, TComplete None)]
                 (item "x" QA_ENGINEER LOW PENDING []) = Ok t'
        ∧ stamped t'.
Proof.
  assert (stamped (item "x" QA_ENGINEER LOW PENDING [])) as Hst.
  { split; intros H; [absurd_by_evaluation H | unfold terminal in H; absurd_by_evaluation H]. }
  destruct (requests_keep_time_stamps
              [(10, TStart (Some "agent_001")); (25, TComplete None)]
              (item "x" QA_ENGINEER LOW PENDING []) Hst) as (t' & H1 & H2 & _).
  exists t'. split; [exact H1 | exact H2].
Defined.

(** X5. [block] followed by [unblock], on an item in any non-terminal state,
    leaves it [PENDING] with the block reason gone and nothing else changed:
    a ready or running item does not get its state back.  On a pending item
    that carried no block reason the two calls cancel out. *)
Theorem block_then_unblock (reason : string) (t : Task) :
  ¬ terminal (status t) →
  unblock (block reason t).2
  = Ok (true, set_context (delete "block_reason" (context t)) (set_status PENDING t))
  ∧ (status t = PENDING → context t !! "block_reason" = None →
       unblock (block reason t).2 = Ok (true, t)).
Proof.
  intros Hnt.
  assert (block reason t
          = (true, set_context (<["block_reason" := reason]> (context t))
                               (set_status BLOCKED t))) as ->.
  { unfold block. rewrite bool_decide_eq_false_2; [done|].
    intros Hin. apply Hnt. unfold terminal. revert Hin.
    case_status t; intros Hin; first [ by_evaluation | absurd_by_evaluation Hin ]. }
  simpl. rewrite unblock_blocked by done.
  assert (∀ c, delete "block_reason" (<["block_reason" := reason]> c)
               = delete "block_reason" c) as Hdel
    by (intros c; apply delete_insert_eq).
  split.
  - destruct t; simpl. by rewrite Hdel.
  - intros Hs Hc. destruct t; simpl in *. rewrite Hdel, delete_id by done. by subst.
Qed.

Lemma block_then_unblock_witness :
  unblock (block "hold" (item "x" QA_ENGINEER LOW IN_PROGRESS [])).2
  = Ok (true, set_context (delete "block_reason" ∅)
                (set_status PENDING (item "x" QA_ENGINEER LOW IN_PROGRESS []))).
Proof.
  apply (proj1 (block_then_unblock "hold" (item "x" QA_ENGINEER LOW IN_PROGRESS [])
                  ltac:(unfold terminal; simpl; by_evaluation))).
Defined.

(** ** Work items: dependencies, tags, dictionary form *)

Lemma remove_first_app_fresh x l : x ∉ l → remove_first x (l ++ [x]) = l.
Proof.
  induction l as [|y l IH]; simpl; intros Hx.
  - by rewrite String.eqb_refl.
  - apply not_elem_of_cons in Hx as [Hne Hx].
    destruct (String.eqb_spec x y) as [->|_]; [done|]. by rewrite IH.
Qed.

Lemma elem_of_remove_first x y l : y ∈ remove_first x l → y ∈ l.
Proof.
  induction l as [|z l IH]; simpl; [done|].
  destruct (String.eqb x z); rewrite !elem_of_cons; [tauto|].
  intros [->|H]; [by left | right; by apply IH].
Qed.

Lemma NoDup_remove_first x l : NoDup l → NoDup (remove_first x l).
Proof.
  induction 1 as [|y l Hy Hnd IH]; simpl; [constructor|].
  destruct (String.eqb x y); [done|]. constructor; [|done].
  intros Hin. by apply Hy, (elem_of_remove_first x).
Qed.

Lemma set_dependencies_same t : set_dependencies (dependencies t) t = t.
Proof. by destruct t. Qed.

(** X6. A dependency list without repetition and without the item's own id
    stays so under [add_dependency] and [remove_dependency]; and removing a
    dependency that [add_dependency] has just added gives the item back as
    it was. *)
Theorem dependency_list_well_formed (dep : string) (t : Task) :
  NoDup (dependencies t) → task_id t ∉ dependencies t →
  let t1 := (add_dependency dep t).2 in
  let t2 := (remove_dependency dep t).2 in
  NoDup (dependencies t1) ∧ (task_id t1 ∉ dependencies t1)
  ∧ NoDup (dependencies t2) ∧ (task_id t2 ∉ dependencies t2)
  ∧ ((add_dependency dep t).1 = true → remove_dependency dep t1 = (true, t)).
Proof.
  intros Hnd Hself. simpl.
  unfold add_dependency, remove_dependency.
  destruct (decide (dep ∈ dependencies t)) as [Hin|Hin].
  - rewrite (bool_decide_eq_false_2 (dep ∉ dependencies t)) by tauto.
    rewrite (bool_decide_eq_true_2 (dep ∈ dependencies t)) by done. simpl.
    repeat split; try done.
    + by apply NoDup_remove_first.
    + intros H. by apply Hself, (elem_of_remove_first dep).
  - rewrite (bool_decide_eq_true_2 (dep ∉ dependencies t)) by done.
    rewrite (bool_decide_eq_false_2 (dep ∈ dependencies t)) by done. simpl.
    destruct (decide (dep = task_id t)) as [Heq|Hne].
    + rewrite bool_decide_eq_false_2 by tauto. simpl. repeat split; done.
    + rewrite bool_decide_eq_true_2 by done. simpl.
      split; [|split; [|split; [done|split; [done|]]]].
      * apply NoDup_app. split; [done|]. split; [|apply NoDup_singleton].
        intros x Hx ->%list_elem_of_singleton. done.
      * rewrite elem_of_app, list_elem_of_singleton. intros [H|H]; [done|]. congruence.
      * intros _. rewrite bool_decide_eq_true_2
          by (rewrite elem_of_app, list_elem_of_singleton; tauto).
        rewrite remove_first_app_fresh by done.
        f_equal. by destruct t.
Qed.

Lemma dependency_list_well_formed_witness :
  remove_dependency "b" (add_dependency "b" (item "x" QA_ENGINEER LOW PENDING ["a"])).2
  = (true, item "x" QA_ENGINEER LOW PENDING ["a"]).
Proof.
  assert (NoDup (dependencies (item "x" QA_ENGINEER LOW PENDING ["a"]))) as Hnd
    by (simpl; by_evaluation).
  assert (task_id (item "x" QA_ENGINEER LOW PENDING ["a"])
          ∉ dependencies (item "x" QA_ENGINEER LOW PENDING ["a"])) as Hself
    by (simpl; by_evaluation).
  destruct (dependency_list_well_formed "b" (item "x" QA_ENGINEER LOW PENDING ["a"])
              Hnd Hself) as (_ & _ & _ & _ & H).
  apply H. reflexivity.
Defined.

Lemma role_of_value_value r : role_of_value (agent_role_value r) = Some r.
Proof. by destruct r. Qed.
Lemma status_of_value_value s : status_of_value (task_status_value s) = Some s.
Proof. by destruct s. Qed.
Lemma priority_of_value_value p : priority_of_value (priority_value p) = Some p.
Proof. by destruct p. Qed.

(** X7. [from_dict] undoes [to_dict]: when [to_dict] returns a dictionary
    for an item that has a title and a deadline, [from_dict] rebuilds exactly
    that item from it, at whatever time it is called.  (Without a title or a
    deadline [__post_init__] would fill in a default instead; and for a
    pending item with dependencies there is no dictionary to start from.) *)
Theorem from_dict_to_dict (now now' : Z) (t : Task) (d : TaskDict) :
  to_dict now t = Ok d →
  title t ≠ "" → is_Some (deadline t) →
  from_dict now' d = Some t.
Proof.
  unfold to_dict. destruct (is_ready t) as [r|]; simpl; [|done].
  intros [= <-] Htitle [dl Hdl]. unfold from_dict. simpl.
  rewrite role_of_value_value, priority_of_value_value, status_of_value_value. simpl.
  unfold post_init, truthy_str. simpl.
  destruct (String.eqb_spec (title t) "") as [|_]; [done|]. simpl.
  rewrite Hdl. destruct t; simpl in *. subst.
  destruct started_at0, completed_at0; reflexivity.
Qed.

Lemma from_dict_to_dict_witness :
  ∃ d, to_dict 5 (item "x" QA_ENGINEER LOW READY ["a"]) = Ok d
       ∧ from_dict 99 d = Some (item "x" QA_ENGINEER LOW READY ["a"]).
Proof.
  destruct (to_dict 5 (item "x" QA_ENGINEER LOW READY ["a"])) as [d|] eqn:E;
    [|vm_compute in E; discriminate E].
  exists d. split; [reflexivity|].
  apply (from_dict_to_dict 5 99 (item "x" QA_ENGINEER LOW READY ["a"]) d E).
  - discriminate.
  - simpl. eauto.
Defined.

(** ** Sorting, and the task query *)

Section sorting.

Context {A : Type} (key : A → Z).

Lemma insert_desc_perm x l : insert_desc key x l ≡ₚ x :: l.
Proof.
  induction l as [|y l IH]; simpl; [done|].
  case_bool_decide; [|done]. rewrite IH. apply Permutation_swap.
Qed.

Lemma sort_desc_perm l : sort_desc key l ≡ₚ l.
Proof.
  unfold sort_desc. induction l as [|x l IH]; simpl; [done|].
  by rewrite insert_desc_perm, IH.
Qed.

Lemma insert_desc_sorted x l :
  StronglySorted (λ a b, key b ≤ key a) l →
  StronglySorted (λ a b, key b ≤ key a) (insert_desc key x l).
Proof.
  induction 1 as [|y l Hs IH Hy]; simpl; [by repeat constructor|].
  case_bool_decide as Hlt.
  - constructor; [done|]. rewrite insert_desc_perm. constructor; [lia|done].
  - constructor; [by constructor|]. constructor; [lia|].
    eapply Forall_impl; [exact Hy|]. simpl. intros z Hz. lia.
Qed.

Lemma sort_desc_sorted l : StronglySorted (λ a b, key b ≤ key a) (sort_desc key l).
Proof.
  unfold sort_desc. induction l as [|x l IH]; simpl; [constructor|].
  by apply insert_desc_sorted.
Qed.

Lemma filter_insert_desc k x l :
  filter (λ y, key y = k) (insert_desc key x l)
  = if decide (key x = k) then x :: filter (λ y, key y = k) l
    else filter (λ y, key y = k) l.
Proof.
  induction l as [|y l IH]; simpl.
  - rewrite filter_cons, filter_nil. by destruct (decide _).
  - case_bool_decide as Hlt.
    + rewrite !(filter_cons _ y), IH.
      destruct (decide (key x = k)), (decide (key y = k)); try done. lia.
    + rewrite (filter_cons _ x). by destruct (decide (key x = k)).
Qed.

Lemma filter_sort_desc k l :
  filter (λ y, key y = k) (sort_desc key l) = filter (λ y, key y = k) l.
Proof.
  unfold sort_desc. induction l as [|x l IH]; simpl; [done|].
  by rewrite filter_insert_desc, filter_cons, IH.
Qed.

Lemma insert_asc_perm x l : TaskQuery.insert_asc key x l ≡ₚ x :: l.
Proof.
  induction l as [|y l IH]; simpl; [done|].
  case_bool_decide; [|done]. rewrite IH. apply Permutation_swap.
Qed.

Lemma sort_asc_perm l : TaskQuery.sort_asc key l ≡ₚ l.
Proof.
  unfold TaskQuery.sort_asc. induction l as [|x l IH]; simpl; [done|].
  by rewrite insert_asc_perm, IH.
Qed.

Lemma insert_asc_sorted x l :
  StronglySorted (λ a b, key a ≤ key b) l →
  StronglySorted (λ a b, key a ≤ key b) (TaskQuery.insert_asc key x l).
Proof.
  induction 1 as [|y l Hs IH Hy]; simpl; [by repeat constructor|].
  case_bool_decide as Hlt.
  - constructor; [done|]. rewrite insert_asc_perm. constructor; [lia|done].
  - constructor; [by constructor|]. constructor; [lia|].
    eapply Forall_impl; [exact Hy|]. simpl. intros z Hz. lia.
Qed.

Lemma sort_asc_sorted l : StronglySorted (λ a b, key a ≤ key b) (TaskQuery.sort_asc key l).
Proof.
  unfold TaskQuery.sort_asc. induction l as [|x l IH]; simpl; [constructor|].
  by apply insert_asc_sorted.
Qed.

Lemma filter_insert_asc k x l :
  filter (λ y, key y = k) (TaskQuery.insert_asc key x l)
  = if decide (key x = k) then x :: filter (λ y, key y = k) l
    else filter (λ y, key y = k) l.
Proof.
  induction l as [|y l IH]; simpl.
  - rewrite filter_cons, filter_nil. by destruct (decide _).
  - case_bool_decide as Hlt.
    + rewrite !(filter_cons _ y), IH.
      destruct (decide (key x = k)), (decide (key y = k)); try done. lia.
    + rewrite (filter_cons _ x). by destruct (decide (key x = k)).
Qed.

Lemma filter_sort_asc k l :
  filter (λ y, key y = k) (TaskQuery.sort_asc key l) = filter (λ y, key y = k) l.
Proof.
  unfold TaskQuery.sort_asc. induction l as [|x l IH]; simpl; [done|].
  by rewrite filter_insert_asc, filter_cons, IH.
Qed.

End sorting.

Lemma priority_value_inj p q : priority_value p = priority_value q → p = q.
Proof. by destruct p, q. Qed.

(** X8. [sort_by_priority] reorders the tasks without adding or losing any,
    highest priority first by default ([reverse=True]) and lowest first
    otherwise, and keeps tasks of equal priority in the order they had: the
    tasks of any one priority come out as [by_priority] finds them in the
    unsorted list. *)
Theorem sort_by_priority_is_stable (reverse : bool) (tasks : list Task) :
  TaskQuery.sort_by_priority reverse tasks ≡ₚ tasks
  ∧ StronglySorted
      (λ a b, if reverse then priority_value (priority b) ≤ priority_value (priority a)
              else priority_value (priority a) ≤ priority_value (priority b))
      (TaskQuery.sort_by_priority reverse tasks)
  ∧ ∀ p, TaskQuery.by_priority p (TaskQuery.sort_by_priority reverse tasks)
         = TaskQuery.by_priority p tasks.
Proof.
  assert (∀ p l, TaskQuery.by_priority p l
                 = filter (λ t, priority_value (priority t) = priority_value p) l) as Hby.
  { intros p l. unfold TaskQuery.by_priority. apply list_filter_iff.
    intros t. split; [by intros ->|apply priority_value_inj]. }
  unfold TaskQuery.sort_by_priority. destruct reverse.
  - split; [apply sort_desc_perm|]. split; [apply sort_desc_sorted|].
    intros p. rewrite !Hby. apply filter_sort_desc.
  - split; [apply sort_asc_perm|]. split; [apply sort_asc_sorted|].
    intros p. rewrite !Hby. apply filter_sort_asc.
Qed.

Lemma ready_to_execute_ok tasks :
  Forall (λ t, status t = PENDING → dependencies t = []) tasks →
  TaskQuery.ready_to_execute tasks = Ok (TaskQuery.by_status PENDING tasks).
Proof.
  unfold TaskQuery.by_status. induction 1 as [|t tasks Ht _ IH]; simpl; [done|].
  rewrite filter_cons. destruct (decide (status t = PENDING)) as [Hs|Hs].
  - rewrite is_ready_no_dependencies by auto. rewrite bool_decide_eq_true_2 by done.
    simpl. by rewrite IH.
  - rewrite is_ready_not_pending by done. simpl. by rewrite IH.
Qed.

Lemma ready_to_execute_raises tasks :
  Exists (λ t, status t = PENDING ∧ dependencies t ≠ []) tasks →
  raises (TaskQuery.ready_to_execute tasks).
Proof.
  induction 1 as [t tasks [Hs Hd]|t tasks _ IH]; simpl.
  - by rewrite is_ready_pending_with_dependencies.
  - destruct (is_ready t) as [r|]; simpl; [|done].
    by destruct (TaskQuery.ready_to_execute tasks).
Qed.

(** X9. [ready_to_execute] fails as soon as the list holds one pending task
    with a dependency, because it reads [is_ready] of every task; when there
    is none it returns the pending tasks, in order. *)
Theorem ready_to_execute_needs_no_pending_dependency (tasks : list Task) :
  (Exists (λ t, status t = PENDING ∧ dependencies t ≠ []) tasks →
     raises (TaskQuery.ready_to_execute tasks))
  ∧ (Forall (λ t, status t = PENDING → dependencies t = []) tasks →
       TaskQuery.ready_to_execute tasks = Ok (TaskQuery.by_status PENDING tasks)).
Proof. split; [apply ready_to_execute_raises | apply ready_to_execute_ok]. Qed.

Lemma ready_to_execute_witness :
  raises (TaskQuery.ready_to_execute
            [item "a" PROJECT_MANAGER LOW PENDING []; item "b" ARCHITECT LOW PENDING ["a"]])
  ∧ TaskQuery.ready_to_execute
      [item "a" PROJECT_MANAGER LOW PENDING []; item "b" ARCHITECT LOW READY ["a"]]
    = Ok [item "a" PROJECT_MANAGER LOW PENDING []].
Proof.
  split.
  - apply (proj1 (ready_to_execute_needs_no_pending_dependency _)).
    apply Exists_cons_tl, Exists_cons_hd. split; [reflexivity | discriminate].
  - apply (proj2 (ready_to_execute_needs_no_pending_dependency
                    [item "a" PROJECT_MANAGER LOW PENDING [];
                     item "b" ARCHITECT LOW READY ["a"]])).
    repeat constructor; simpl; discriminate.
Defined.

(** X10. [limit] returns a prefix of the tasks: the first [count] of them
    (all of them when there are fewer) for [count ≥ 0], and all but the last
    [-count] for a negative [count], so [limit(-1)] drops the last task. *)
Theorem limit_is_python_slice (count : Z) (tasks : list Task) :
  TaskQuery.limit count tasks `prefix_of` tasks
  ∧ Z.of_nat (length (TaskQuery.limit count tasks))
    = if bool_decide (count < 0)
      then Z.max 0 (Z.of_nat (length tasks) + count)
      else Z.min count (Z.of_nat (length tasks)).
Proof.
  unfold TaskQuery.limit, TaskQuery.slice_to. split.
  - case_bool_decide; apply prefix_take.
  - case_bool_decide; rewrite length_take; lia.
Qed.

(** ** Scheduler: what [get_ready_tasks] returns *)

Lemma forallb_in_completed (completed : gset string) deps :
  forallb (λ dep_id, bool_decide (dep_id ∈ completed)) deps = true
  ↔ ∀ dep, dep ∈ deps → dep ∈ completed.
Proof.
  induction deps as [|d deps IH]; simpl.
  - split; [|done]. intros _ dep Hin. by apply elem_of_nil in Hin.
  - rewrite andb_true_iff, IH, bool_decide_eq_true. split.
    + intros [Hd Hrest] dep [->|Hin]%elem_of_cons; auto.
    + intros H. split; [apply H; constructor|].
      intros dep Hin. apply H. by apply list_elem_of_further.
Qed.

Lemma scan_test_eligible completed maxc q loads t :
  status t = PENDING →
  forallb (λ dep_id, bool_decide (dep_id ∈ completed)) (dependencies t)
  && bool_decide (load loads (agent_role t) < maxc) = true
  ↔ eligible completed (mkScheduler q loads maxc) t.
Proof.
  intros Hs. unfold eligible. simpl.
  rewrite andb_true_iff, forallb_in_completed, bool_decide_eq_true. tauto.
Qed.

(** The loop of [get_ready_tasks], in full: what it appends, what it
    changes, what it leaves. *)
Lemma scan_queue_spec completed maxc q :
  ∀ σ loads ready σ' loads' ready',
    scan_queue completed maxc q σ loads ready = Some (σ', loads', ready') →
    ∃ new,
      ready' = ready ++ new
      ∧ new `sublist_of` q
      ∧ NoDup new
      ∧ (∀ role, load loads' role = load loads role)
      ∧ (∀ r, r ∈ q → is_Some (σ !! r))
      ∧ (∀ r, r ∈ new →
           ∃ t, σ !! r = Some t ∧ eligible completed (mkScheduler q loads maxc) t
                ∧ σ' !! r = Some (set_status READY t))
      ∧ (∀ r, r ∉ new → σ' !! r = σ !! r)
      ∧ (∀ r t, r ∈ q → σ !! r = Some t →
           eligible completed (mkScheduler q loads maxc) t → r ∈ new).
Proof.
  induction q as [|r0 q IH]; intros σ loads ready σ' loads' ready'; simpl.
  - intros [= <- <- <-]. exists []. rewrite app_nil_r.
    repeat split; try done; try constructor.
    all: try (intros r Hin; by apply elem_of_nil in Hin).
    all: try (intros r t Hin; by apply elem_of_nil in Hin).
  - destruct (σ !! r0) as [t0|] eqn:Hr0; [simpl|done].
    destruct (decide (status t0 = PENDING)) as [Hp|Hp].
    + rewrite bool_decide_eq_true_2 by done.
      destruct (forallb _ _ && bool_decide _) eqn:Htest.
      * apply (scan_test_eligible completed maxc q loads t0 Hp) in Htest.
        intros Hscan.
        apply IH in Hscan as (new & -> & Hsub & Hnd & Hload & Hdom & Hnew & Hkeep & Hall).
        assert (r0 ∉ new) as Hr0new.
        { intros Hin. destruct (Hnew r0 Hin) as (t & Hl & [Hs _] & _).
          rewrite lookup_insert_eq in Hl. injection Hl as <-. done. }
        exists (r0 :: new). split; [by rewrite <- app_assoc|].
        split; [by apply sublist_skip|]. split; [by constructor|].
        split; [intros role; by rewrite Hload, load_touch|].
        split.
        { intros r [->|Hin]%elem_of_cons; [by rewrite Hr0|].
          destruct (Hdom r Hin) as [t Hl].
          destruct (decide (r0 = r)) as [->|Hne]; [by rewrite Hr0|].
          rewrite lookup_insert_ne in Hl by done. by rewrite Hl. }
        split.
        { intros r [->|Hin]%elem_of_cons.
          - exists t0. split; [done|]. split.
            + destruct Htest as (H1 & H2 & H3). by repeat split.
            + rewrite (Hkeep r0 Hr0new). apply lookup_insert_eq.
          - destruct (Hnew r Hin) as (t & Hl & (Hs & Hd & Hld) & Hl').
            assert (r0 ≠ r) as Hne by (intros ->; done).
            rewrite lookup_insert_ne in Hl by done.
            exists t. split; [done|]. split; [|done].
            repeat split; try done. simpl in *. by rewrite load_touch in Hld. }
        split.
        { intros r Hr. apply not_elem_of_cons in Hr as [Hne Hr].
          rewrite (Hkeep r Hr). by rewrite lookup_insert_ne. }
        intros r t [->|Hin]%elem_of_cons Hl Hel; [constructor|].
        destruct (decide (r = r0)) as [->|Hne]; [constructor|].
        apply list_elem_of_further. apply (Hall r t Hin).
        -- by rewrite lookup_insert_ne.
        -- destruct Hel as (Hs & Hd & Hld). repeat split; try done.
           simpl in *. by rewrite load_touch.
      * assert (¬ eligible completed (mkScheduler q loads maxc) t0) as Hnot.
        { intros Hel. apply (scan_test_eligible completed maxc q loads t0 Hp) in Hel.
          congruence. }
        intros Hscan.
        apply IH in Hscan as (new & -> & Hsub & Hnd & Hload & Hdom & Hnew & Hkeep & Hall).
        exists new. split; [done|]. split; [by apply sublist_cons|]. split; [done|].
        split; [intros role; by rewrite Hload, load_touch|].
        split.
        { intros r [->|Hin]%elem_of_cons; [by rewrite Hr0|]. by apply Hdom. }
        split.
        { intros r Hin. destruct (Hnew r Hin) as (t & Hl & (Hs & Hd & Hld) & Hl').
          exists t. split; [done|]. split; [|done].
          repeat split; try done. simpl in *. by rewrite load_touch in Hld. }
        split; [done|].
        intros r t [->|Hin]%elem_of_cons Hl Hel.
        -- rewrite Hr0 in Hl. injection Hl as <-.
           exfalso. apply Hnot. destruct Hel as (Hs & Hd & Hld). by repeat split.
        -- apply (Hall r t Hin Hl).
           destruct Hel as (Hs & Hd & Hld). repeat split; try done.
           simpl in *. by rewrite load_touch.
    + rewrite bool_decide_eq_false_2 by done. intros Hscan.
      apply IH in Hscan as (new & -> & Hsub & Hnd & Hload & Hdom & Hnew & Hkeep & Hall).
      exists new. split; [done|]. split; [by apply sublist_cons|]. split; [done|].
      split; [done|].
      split.
      { intros r [->|Hin]%elem_of_cons; [by rewrite Hr0|]. by apply Hdom. }
      split; [done|]. split; [done|].
      intros r t [->|Hin]%elem_of_cons Hl Hel.
      * rewrite Hr0 in Hl. injection Hl as <-. by destruct Hel.
      * by apply (Hall r t Hin Hl).
Qed.

Lemma insert_desc_decorate {A} (g : A → Z) x l :
  insert_desc snd (x, g x) ((λ r, (r, g r)) <$> l)
  = (λ r, (r, g r)) <$> insert_desc g x l.
Proof.
  induction l as [|y l IH]; simpl; [done|].
  case_bool_decide; simpl; [f_equal; exact IH | done].
Qed.

Lemma sort_desc_decorate {A} (g : A → Z) l :
  sort_desc snd ((λ r, (r, g r)) <$> l) = (λ r, (r, g r)) <$> sort_desc g l.
Proof.
  unfold sort_desc. induction l as [|x l IH]; [done|].
  rewrite fmap_cons. cbn [foldr]. rewrite IH. apply insert_desc_decorate.
Qed.

Lemma with_priority_decorate σ l keyed :
  mapM (with_priority σ) l = Some keyed →
  keyed = (λ r, (r, priority_at σ r)) <$> l.
Proof.
  rewrite mapM_Some. induction 1 as [|r k l keyed Hk _ IH]; [done|].
  rewrite fmap_cons, IH. f_equal.
  unfold with_priority, priority_at in *. destruct (σ !! r); simpl in *; [|done].
  by injection Hk as <-.
Qed.

Lemma scheduler_eta s :
  mkScheduler (task_queue s) (agent_loads s) (max_concurrent_tasks s) = s.
Proof. by destruct s. Qed.

(** [get_ready_tasks] is the loop followed by the sort. *)
Lemma get_ready_tasks_scan completed σ s ready σ' s' :
  get_ready_tasks completed σ s = Some (ready, σ', s') →
  ∃ new loads',
    scan_queue (default ∅ completed) (max_concurrent_tasks s) (task_queue s) σ
               (agent_loads s) [] = Some (σ', loads', new)
    ∧ ready = sort_desc (priority_at σ') new
    ∧ s' = set_agent_loads loads' s.
Proof.
  unfold get_ready_tasks.
  destruct (scan_queue _ _ _ _ _ _) as [[[σ1 loads1] new]|] eqn:Hscan; [simpl|done].
  destruct (mapM _ _) as [keyed|] eqn:Hkeyed; [simpl|done].
  intros [= <- <- <-]. exists new, loads1. split; [done|]. split; [|done].
  apply with_priority_decorate in Hkeyed as ->.
  rewrite sort_desc_decorate, <- list_fmap_compose. simpl.
  by rewrite list_fmap_id.
Qed.

(** X11. [get_ready_tasks] returns exactly the queued items that are
    pending, have every dependency in the completed set given, and whose
    role counter is below the ceiling at the time of the call.  The counter
    is compared as it stands, so the number of items returned for one role
    is not limited by the ceiling. *)
Theorem get_ready_tasks_returns_the_eligible
    (completed : option (gset string)) (σ σ' : Store) (s s' : TaskScheduler)
    (ready : list loc) :
  get_ready_tasks completed σ s = Some (ready, σ', s') →
  ∀ r, r ∈ ready
       ↔ r ∈ task_queue s ∧ ∃ t, σ !! r = Some t ∧ eligible (default ∅ completed) s t.
Proof.
  intros (new & loads' & Hscan & -> & _)%get_ready_tasks_scan r.
  apply scan_queue_spec in Hscan
    as (new' & Hnew' & Hsub & _ & _ & _ & Hnew & _ & Hall).
  simpl in Hnew'. subst new'. rewrite scheduler_eta in *.
  rewrite elem_of_sort_desc. split.
  - intros Hin. split.
    + by apply (elem_of_sublist new).
    + destruct (Hnew r Hin) as (t & Hl & Hel & _). eauto.
  - intros (Hq & t & Hl & Hel). by apply (Hall r t).
Qed.

Lemma get_ready_tasks_returns_the_eligible_witness :
  0%nat ∈ [0%nat]
  ↔ 0%nat ∈ [0%nat; 1%nat; 2%nat]
    ∧ ∃ t, three_items !! 0%nat = Some t
           ∧ eligible ∅ (mkScheduler [0%nat; 1%nat; 2%nat] ∅ 3) t.
Proof.
  assert (get_ready_tasks None three_items (mkScheduler [0%nat; 1%nat; 2%nat] ∅ 3)
          = Some ([0%nat],
                  <[0%nat := item "a" PROJECT_MANAGER MEDIUM READY []]> three_items,
                  mkScheduler [0%nat; 1%nat; 2%nat]
                              {[ PROJECT_MANAGER := 0; ARCHITECT := 0 ]} 3)) as E
    by (vm_compute; reflexivity).
  exact (get_ready_tasks_returns_the_eligible _ _ _ _ _ _ E 0%nat).
Defined.

Lemma get_ready_tasks_frame
    (completed : option (gset string)) (σ σ' : Store) (s s' : TaskScheduler)
    (ready : list loc) :
  get_ready_tasks completed σ s = Some (ready, σ', s') →
  (∀ r, r ∈ ready → σ' !! r = set_status READY <$> σ !! r)
  ∧ (∀ r, r ∉ ready → σ' !! r = σ !! r)
  ∧ task_queue s' = task_queue s
  ∧ max_concurrent_tasks s' = max_concurrent_tasks s
  ∧ ∀ role, load (agent_loads s') role = load (agent_loads s) role.
Proof.
  intros (new & loads' & Hscan & -> & ->)%get_ready_tasks_scan.
  apply scan_queue_spec in Hscan
    as (new' & Hnew' & _ & _ & Hload & _ & Hnew & Hkeep & _).
  simpl in Hnew'. subst new'. split; [|split].
  - intros r Hin%elem_of_sort_desc. destruct (Hnew r Hin) as (t & -> & _ & ->). done.
  - intros r Hin. apply Hkeep. by rewrite elem_of_sort_desc in Hin.
  - done.
Qed.

(** X12. [get_ready_tasks] changes the items it returns, and only their
    status, which becomes [READY]; every other item, the queue and the
    ceiling are as before, and every counter has the value it had (a counter
    that was missing is now stored as 0). *)
Theorem get_ready_tasks_marks_what_it_returns
    (completed : option (gset string)) (σ σ' : Store) (s s' : TaskScheduler)
    (ready : list loc) :
  get_ready_tasks completed σ s = Some (ready, σ', s') →
  (∀ r, r ∈ ready → σ' !! r = set_status READY <$> σ !! r)
  ∧ (∀ r, r ∉ ready → σ' !! r = σ !! r)
  ∧ task_queue s' = task_queue s
  ∧ max_concurrent_tasks s' = max_concurrent_tasks s
  ∧ ∀ role, load (agent_loads s') role = load (agent_loads s) role.
Proof. apply get_ready_tasks_frame. Qed.

Lemma get_ready_tasks_marks_witness :
  (<[0%nat := item "a" PROJECT_MANAGER MEDIUM READY []]> three_items) !! 1%nat
  = three_items !! 1%nat.
Proof.
  assert (get_ready_tasks None three_items (mkScheduler [0%nat; 1%nat; 2%nat] ∅ 3)
          = Some ([0%nat],
                  <[0%nat := item "a" PROJECT_MANAGER MEDIUM READY []]> three_items,
                  mkScheduler [0%nat; 1%nat; 2%nat]
                              {[ PROJECT_MANAGER := 0; ARCHITECT := 0 ]} 3)) as E
    by (vm_compute; reflexivity).
  apply (proj1 (proj2 (get_ready_tasks_marks_what_it_returns _ _ _ _ _ _ E)) 1%nat).
  by_evaluation.
Defined.

(** X13. The list [get_ready_tasks] returns has no repetition and is in
    order of priority, highest first; items of equal priority come in the
    order of the queue. *)
Theorem get_ready_tasks_orders_by_priority
    (completed : option (gset string)) (σ σ' : Store) (s s' : TaskScheduler)
    (ready : list loc) :
  get_ready_tasks completed σ s = Some (ready, σ', s') →
  NoDup ready
  ∧ StronglySorted (λ r1 r2, priority_at σ' r2 ≤ priority_at σ' r1) ready
  ∧ ∀ p, filter (λ r, priority_at σ' r = p) ready `sublist_of` task_queue s.
Proof.
  intros (new & loads' & Hscan & -> & ->)%get_ready_tasks_scan.
  apply scan_queue_spec in Hscan as (new' & Hnew' & Hsub & Hnd & _).
  simpl in Hnew'. subst new'. split; [|split].
  - by rewrite sort_desc_perm.
  - apply sort_desc_sorted.
  - intros p. rewrite filter_sort_desc.
    etrans; [apply sublist_filter | exact Hsub].
Qed.

Lemma get_ready_tasks_orders_witness :
  NoDup [1%nat; 2%nat; 0%nat]
  ∧ filter (λ r, priority_at
                   (<[2%nat := item "c" ARCHITECT HIGH READY ["a"]]>
                      (<[1%nat := item "b" ARCHITECT HIGH READY ["a"]]>
                         (<[0%nat := item "a" PROJECT_MANAGER MEDIUM READY []]> three_items)))
                   r = 3) [1%nat; 2%nat; 0%nat]
    `sublist_of` [0%nat; 1%nat; 2%nat].
Proof.
  assert (get_ready_tasks (Some {[ "a" ]}) three_items
            (mkScheduler [0%nat; 1%nat; 2%nat] ∅ 3)
          = Some ([1%nat; 2%nat; 0%nat],
                  <[2%nat := item "c" ARCHITECT HIGH READY ["a"]]>
                    (<[1%nat := item "b" ARCHITECT HIGH READY ["a"]]>
                       (<[0%nat := item "a" PROJECT_MANAGER MEDIUM READY []]> three_items)),
                  mkScheduler [0%nat; 1%nat; 2%nat]
                              {[ PROJECT_MANAGER := 0; ARCHITECT := 0 ]} 3)) as E
    by (vm_compute; reflexivity).
  destruct (get_ready_tasks_orders_by_priority _ _ _ _ _ _ E) as (H1 & _ & H3).
  split; [exact H1 | exact (H3 3)].
Defined.

Lemma scan_queue_keys completed maxc q :
  ∀ σ loads ready σ' loads' ready',
    scan_queue completed maxc q σ loads ready = Some (σ', loads', ready') →
    (∀ k, is_Some (loads !! k) → is_Some (loads' !! k))
    ∧ (∀ r t, r ∈ q → σ !! r = Some t → status t = PENDING →
         is_Some (loads' !! agent_role t)).
Proof.
  assert (∀ loads role k, is_Some (loads !! k) → is_Some (loads_touch loads role !! k))
    as Htouch.
  { intros loads role k Hk. unfold loads_touch.
    destruct (decide (role = k)) as [->|Hne];
      [by rewrite lookup_insert_eq | by rewrite lookup_insert_ne]. }
  assert (∀ loads role, is_Some (loads_touch loads role !! role)) as Hself.
  { intros loads role. unfold loads_touch. by rewrite lookup_insert_eq. }
  induction q as [|r0 q IH]; intros σ loads ready σ' loads' ready'; simpl.
  - intros [= <- <- <-]. split; [done|]. intros r t Hin. by apply elem_of_nil in Hin.
  - destruct (σ !! r0) as [t0|] eqn:Hr0; [simpl|done].
    destruct (decide (status t0 = PENDING)) as [Hp|Hp].
    + rewrite bool_decide_eq_true_2 by done.
      destruct (forallb _ _ && bool_decide _); intros [Hk Hq]%IH.
      * split; [intros k Hsome; by apply Hk, Htouch|].
        intros r t [->|Hin]%elem_of_cons Hl Hs.
        -- rewrite Hr0 in Hl. injection Hl as <-. apply Hk, Hself.
        -- destruct (decide (r0 = r)) as [->|Hne].
           ++ rewrite Hr0 in Hl. injection Hl as <-. apply Hk, Hself.
           ++ apply (Hq r t Hin); [|done]. by rewrite lookup_insert_ne.
      * split; [intros k Hsome; by apply Hk, Htouch|].
        intros r t [->|Hin]%elem_of_cons Hl Hs.
        -- rewrite Hr0 in Hl. injection Hl as <-. apply Hk, Hself.
        -- by apply (Hq r t Hin).
    + rewrite bool_decide_eq_false_2 by done. intros [Hk Hq]%IH.
      split; [done|]. intros r t [->|Hin]%elem_of_cons Hl Hs.
      * rewrite Hr0 in Hl. by injection Hl as <-.
      * by apply (Hq r t Hin).
Qed.

Lemma scan_queue_nothing_to_do completed maxc q0 q σ loads ready :
  (∀ r, r ∈ q → ∃ t, σ !! r = Some t
                     ∧ (status t = PENDING →
                          ¬ eligible completed (mkScheduler q0 loads maxc) t
                          ∧ is_Some (loads !! agent_role t))) →
  scan_queue completed maxc q σ loads ready = Some (σ, loads, ready).
Proof.
  induction q as [|r0 q IH]; intros Hq; simpl; [done|].
  destruct (Hq r0) as (t0 & Hr0 & Ht0); [constructor|]. rewrite Hr0. simpl.
  assert (∀ r, r ∈ q → ∃ t, σ !! r = Some t
                            ∧ (status t = PENDING →
                                 ¬ eligible completed (mkScheduler q0 loads maxc) t
                                 ∧ is_Some (loads !! agent_role t))) as Hq'.
  { intros r Hin. apply Hq. by apply list_elem_of_further. }
  destruct (decide (status t0 = PENDING)) as [Hp|Hp].
  - rewrite bool_decide_eq_true_2 by done.
    destruct (Ht0 Hp) as [Hnot [v Hv]].
    assert (loads_touch loads (agent_role t0) = loads) as ->.
    { unfold loads_touch, load. rewrite Hv. simpl. by apply insert_id. }
    destruct (forallb _ _ && bool_decide _) eqn:Htest; [|by apply IH].
    exfalso. apply Hnot.
    by apply (scan_test_eligible completed maxc q0 loads t0 Hp).
  - rewrite bool_decide_eq_false_2 by done. by apply IH.
Qed.

(** X14. Asking again changes nothing: a second [get_ready_tasks] with the
    same completed set, made right after the first, returns the empty list
    and leaves the items and the scheduler exactly as the first call left
    them. *)
Theorem get_ready_tasks_twice
    (completed : option (gset string)) (σ σ' : Store) (s s' : TaskScheduler)
    (ready : list loc) :
  get_ready_tasks completed σ s = Some (ready, σ', s') →
  get_ready_tasks completed σ' s' = Some ([], σ', s').
Proof.
  intros (new & loads' & Hscan & -> & ->)%get_ready_tasks_scan.
  pose proof (scan_queue_keys _ _ _ _ _ _ _ _ _ Hscan) as [_ Hkeys].
  apply scan_queue_spec in Hscan
    as (new' & Hnew' & _ & _ & Hload & Hdom & Hnew & Hkeep & Hall).
  simpl in Hnew'. subst new'.
  unfold get_ready_tasks. simpl.
  rewrite (scan_queue_nothing_to_do _ _ (task_queue s)).
  - simpl. by destruct s.
  - intros r Hq. destruct (Hdom r Hq) as [t Hl].
    destruct (decide (r ∈ new)) as [Hin|Hin].
    + destruct (Hnew r Hin) as (t1 & Hl1 & _ & Hl').
      exists (set_status READY t1). split; [done|]. simpl. done.
    + exists t. split; [by rewrite (Hkeep r Hin)|]. intros Hp. split.
      * intros (Hs & Hd & Hld). apply Hin, (Hall r t Hq Hl).
        repeat split; try done. simpl in *. by rewrite <- Hload.
      * by apply (Hkeys r t).
Qed.

Lemma get_ready_tasks_twice_witness :
  get_ready_tasks None
    (<[0%nat := item "a" PROJECT_MANAGER MEDIUM READY []]> three_items)
    (mkScheduler [0%nat; 1%nat; 2%nat] {[ PROJECT_MANAGER := 0; ARCHITECT := 0 ]} 3)
  = Some ([], <[0%nat := item "a" PROJECT_MANAGER MEDIUM READY []]> three_items,
          mkScheduler [0%nat; 1%nat; 2%nat] {[ PROJECT_MANAGER := 0; ARCHITECT := 0 ]} 3).
Proof.
  assert (get_ready_tasks None three_items (mkScheduler [0%nat; 1%nat; 2%nat] ∅ 3)
          = Some ([0%nat],
                  <[0%nat := item "a" PROJECT_MANAGER MEDIUM READY []]> three_items,
                  mkScheduler [0%nat; 1%nat; 2%nat]
                              {[ PROJECT_MANAGER := 0; ARCHITECT := 0 ]} 3)) as E
    by (vm_compute; reflexivity).
  exact (get_ready_tasks_twice _ _ _ _ _ _ E).
Defined.

(** ** Scheduler: counters and queue under any use *)

Lemma sched_step_keeps s σ s' σ' :
  sched_step (σ, s) (σ', s') →
  loads_nonneg (agent_loads s) →
  loads_nonneg (agent_loads s')
  ∧ max_concurrent_tasks s' = max_concurrent_tasks s
  ∧ task_queue s `prefix_of` task_queue s'.
Proof.
  intros Hstep Hnn.
  inversion Hstep as [r b ? ? ? ? Hop | completed ready ? ? ? ? Hop
                     | now r a b ? ? ? ? Hop | now r res b ? ? ? ? Hop]; subst.
  - unfold add_task in Hop. destruct (σ !! r); simpl in Hop; [|done].
    destruct (negb _); injection Hop as <- <- <-; simpl.
    + split; [done|]. split; [done|]. by apply prefix_app_r.
    + done.
  - apply get_ready_tasks_frame in Hop as (_ & _ & Hq & Hm & Hl).
    split; [intros role; by rewrite Hl|]. split; [done|]. by rewrite Hq.
  - unfold assign_task in Hop. destruct (σ !! r) as [t|]; simpl in Hop; [|done].
    destruct (start now a t) as [[] t']; injection Hop as <- <- <-; simpl; [|done].
    split; [|done]. intros role.
    destruct (decide (agent_role t' = role)) as [<-|Hne].
    + rewrite load_insert_eq. specialize (Hnn (agent_role t')). lia.
    + by rewrite load_insert_ne.
  - unfold complete_task in Hop. destruct (σ !! r) as [t|]; simpl in Hop; [|done].
    destruct (complete now res t) as [[] t']; injection Hop as <- <- <-; simpl; [|done].
    split; [|done]. intros role.
    destruct (decide (agent_role t' = role)) as [<-|Hne].
    + rewrite load_insert_eq. lia.
    + by rewrite load_insert_ne.
Qed.

(** X15. However the four operations of the scheduler are called, on
    whatever items and in whatever order, no counter ever becomes negative,
    the ceiling keeps its value, and the queue only grows at its end. *)
Theorem scheduler_counters_never_negative
    (σ σ' : Store) (s s' : TaskScheduler) :
  rtc sched_step (σ, s) (σ', s') →
  loads_nonneg (agent_loads s) →
  loads_nonneg (agent_loads s')
  ∧ max_concurrent_tasks s' = max_concurrent_tasks s
  ∧ task_queue s `prefix_of` task_queue s'.
Proof.
  intros Hrtc.
  remember (σ, s) as x eqn:Hx. remember (σ', s') as y eqn:Hy.
  revert σ s Hx. induction Hrtc as [x|x [σ1 s1] z Hstep Hrtc IH]; intros σ s -> Hnn.
  - injection Hy as <- <-. done.
  - destruct (sched_step_keeps _ _ _ _ Hstep Hnn) as (Hnn1 & Hm1 & Hq1).
    destruct (IH Hy σ1 s1 eq_refl Hnn1) as (Hnn' & Hm' & Hq').
    split; [done|]. split; [congruence|]. by etrans.
Qed.

Lemma scheduler_counters_never_negative_witness :
  0 ≤ load ({[ PROJECT_MANAGER := 0 ]} : gmap AgentRole Z) PROJECT_MANAGER.
Proof.
  set (σ0 := ({[ 0%nat := item "a" PROJECT_MANAGER MEDIUM PENDING [] ]} : Store)).
  set (σ1 := ({[ 0%nat := item "a" PROJECT_MANAGER MEDIUM READY [] ]} : Store)).
  assert (get_ready_tasks None σ0 (mkScheduler [0%nat] ∅ 3)
          = Some ([0%nat], σ1, mkScheduler [0%nat] {[ PROJECT_MANAGER := 0 ]} 3)) as E
    by (vm_compute; reflexivity).
  assert (loads_nonneg (∅ : gmap AgentRole Z)) as H0
    by (intros role; unfold load; by rewrite lookup_empty).
  exact (proj1 (scheduler_counters_never_negative _ _ _ _
                  (rtc_once _ _ (api_get_ready_tasks _ _ _ _ _ _ E)) H0)
               PROJECT_MANAGER).
Defined.

(** X16. [assign_task] does not look at the ceiling: dispatching a list of
    distinct pending items of one role raises that role's counter by the
    length of the list, whatever the ceiling is. *)
Theorem assign_task_ignores_ceiling
    (now : Z) (role : AgentRole) (l : list loc) (σ : Store) (s : TaskScheduler) :
  NoDup l →
  (∀ r, r ∈ l → ∃ t, σ !! r = Some t ∧ status t = PENDING ∧ agent_role t = role) →
  ∃ σ' s', assign_all now l σ s = Some (σ', s')
           ∧ load (agent_loads s') role
             = load (agent_loads s) role + Z.of_nat (length l)
           ∧ max_concurrent_tasks s' = max_concurrent_tasks s.
Proof.
  intros Hnd. revert σ s. induction Hnd as [|r l Hr Hnd IH]; intros σ s Hall; simpl.
  - exists σ, s. split; [done|]. split; [lia|done].
  - destruct (Hall r) as (t & Hl & Hs & Hrole); [constructor|].
    destruct (start_pending now None t Hs) as (t' & Hst & Hs' & Hrole' & _).
    unfold assign_task. rewrite Hl. simpl. rewrite Hst. simpl.
    edestruct IH as (σ' & s' & Hrest & Hload & Hmax).
    2:{ exists σ', s'. split; [exact Hrest|]. rewrite Hload. simpl.
        rewrite Hrole', Hrole, load_insert_eq. split; [lia|done]. }
    intros r1 Hin. destruct (Hall r1) as (t1 & Hl1 & Hs1 & Hrole1);
      [by apply list_elem_of_further|].
    exists t1. rewrite lookup_insert_ne by (intros ->; done). done.
Qed.

Lemma assign_task_ignores_ceiling_witness :
  ∃ σ' s',
    assign_all 1 [0%nat; 1%nat; 2%nat; 3%nat]
      {[ 0%nat := item "a" QA_ENGINEER LOW PENDING []; 1%nat := item "b" QA_ENGINEER LOW PENDING [];
         2%nat := item "c" QA_ENGINEER LOW PENDING []; 3%nat := item "d" QA_ENGINEER LOW PENDING [] ]}
      new_scheduler = Some (σ', s')
    ∧ load (agent_loads s') QA_ENGINEER = 4
    ∧ max_concurrent_tasks s' = 3.
Proof.
  apply (assign_task_ignores_ceiling 1 QA_ENGINEER [0%nat; 1%nat; 2%nat; 3%nat]
           {[ 0%nat := item "a" QA_ENGINEER LOW PENDING [];
              1%nat := item "b" QA_ENGINEER LOW PENDING [];
              2%nat := item "c" QA_ENGINEER LOW PENDING [];
              3%nat := item "d" QA_ENGINEER LOW PENDING [] ]} new_scheduler).
  - by_evaluation.
  - intros r Hin.
    repeat (apply elem_of_cons in Hin as [->|Hin];
            [eexists; split; [vm_compute; reflexivity | split; reflexivity]|]).
    by apply elem_of_nil in Hin.
Defined.

(** ** Scheduler: the counters and the ceiling *)








(** X17. Dispatching a pending item and then reporting it completed, as the
    unit test does: both calls return true, the item ends [COMPLETED], and
    every counter is back at the value it had, provided the counter of the
    item's role was not negative. *)
Theorem assign_then_complete
    (now now' : Z) (r : loc) (a : option string) (res : option (gmap string string))
    (σ : Store) (s : TaskScheduler) (t : Task) :
  σ !! r = Some t → status t = PENDING →
  0 ≤ load (agent_loads s) (agent_role t) →
  ∃ σ1 s1 σ2 s2 t2,
    assign_task now r a σ s = Some (true, σ1, s1)
    ∧ complete_task now' r res σ1 s1 = Some (true, σ2, s2)
    ∧ σ2 !! r = Some t2 ∧ status t2 = COMPLETED
    ∧ started_at t2 = Some now ∧ completed_at t2 = Some now'
    ∧ ∀ role, load (agent_loads s2) role = load (agent_loads s) role.
Proof.
  intros Hl Hs Hnn.
  destruct (start_pending now a t Hs) as (t1 & Hst & Hs1 & Hrole1 & Hstart1).
  unfold assign_task. rewrite Hl. simpl. rewrite Hst.
  eexists _, _. unfold complete_task. rewrite lookup_insert_eq. simpl.
  assert (∃ t2, complete now' res t1 = (true, t2) ∧ status t2 = COMPLETED
                ∧ agent_role t2 = agent_role t1 ∧ started_at t2 = started_at t1
                ∧ completed_at t2 = Some now') as (t2 & Hc & Hs2 & Hrole2 & Hst2 & Hct2).
  { unfold complete. rewrite bool_decide_eq_false_2 by (rewrite Hs1; naive_solver).
    destruct res as [x|]; [destruct (bool_decide (x = ∅))|]; eauto 10. }
  rewrite Hc. exists (<[r := t2]> (<[r := t1]> σ)). eexists. exists t2.
  split; [reflexivity|]. split; [reflexivity|]. rewrite lookup_insert_eq.
  split; [done|]. split; [done|]. split; [congruence|]. split; [done|].
  intros role. simpl. rewrite Hrole2, Hrole1.
  destruct (decide (agent_role t = role)) as [<-|Hne].
  - rewrite !load_insert_eq. lia.
  - by rewrite !load_insert_ne.
Qed.

Lemma assign_then_complete_witness :
  ∃ σ1 s1 σ2 s2 t2,
    assign_task 1 0%nat (Some "agent_001")
      {[ 0%nat := item "x" PROJECT_MANAGER MEDIUM PENDING [] ]} new_scheduler
    = Some (true, σ1, s1)
    ∧ complete_task 2 0%nat (Some {[ "output" := "done" ]}) σ1 s1 = Some (true, σ2, s2)
    ∧ σ2 !! 0%nat = Some t2 ∧ status t2 = COMPLETED
    ∧ load (agent_loads s2) PROJECT_MANAGER = 0.
Proof.
  assert (({[ 0%nat := item "x" PROJECT_MANAGER MEDIUM PENDING [] ]} : Store) !! 0%nat
          = Some (item "x" PROJECT_MANAGER MEDIUM PENDING [])) as Hl
    by (vm_compute; reflexivity).
  assert (0 ≤ load (agent_loads new_scheduler) PROJECT_MANAGER) as Hnn
    by (vm_compute; discriminate).
  destruct (assign_then_complete 1 2 0%nat (Some "agent_001") (Some {[ "output" := "done" ]})
              _ new_scheduler _ Hl eq_refl Hnn)
    as (σ1 & s1 & σ2 & s2 & t2 & H1 & H2 & H3 & H4 & _ & _ & H5).
  exists σ1, s1, σ2, s2, t2.
  split; [exact H1|]. split; [exact H2|]. split; [exact H3|]. split; [exact H4|].
  exact (H5 PROJECT_MANAGER).
Defined.

Lemma in_queue_spec σ t q : in_queue σ t q = true ↔ ∃ r, r ∈ q ∧ σ !! r = Some t.
Proof. unfold in_queue. rewrite bool_decide_eq_true, Exists_exists. done. Qed.

(** X18. Once [add_task] has been called on an item, calling it again on
    that item, or on any other object equal to it field by field, returns
    false and changes nothing; and a queue without repeated references stays
    so.  The test is equality of all fields: the id alone does not decide. *)
Theorem add_task_rejects_duplicates
    (r : loc) (b : bool) (σ σ' : Store) (s s' : TaskScheduler) :
  add_task r σ s = Some (b, σ', s') →
  σ' = σ
  ∧ (∀ r2, σ !! r2 = σ !! r → add_task r2 σ' s' = Some (false, σ', s'))
  ∧ (NoDup (task_queue s) → NoDup (task_queue s')).
Proof.
  unfold add_task at 1. destruct (σ !! r) as [t|] eqn:Hl; simpl; [|done].
  destruct (in_queue σ t (task_queue s)) eqn:Hin; simpl; intros [= <- <- <-].
  - split; [done|]. split; [|done].
    intros r2 Hr2. unfold add_task. rewrite Hr2. simpl. by rewrite Hin.
  - split; [done|]. split.
    + intros r2 Hr2. unfold add_task. rewrite Hr2. simpl.
      assert (in_queue σ t (task_queue s ++ [r]) = true) as ->; [|done].
      apply in_queue_spec. exists r. split; [|done].
      apply elem_of_app. right. constructor.
    + intros Hnd. apply NoDup_app. split; [done|]. split; [|apply NoDup_singleton].
      intros x Hx ->%list_elem_of_singleton.
      assert (in_queue σ t (task_queue s) = true) as Habs; [|congruence].
      apply in_queue_spec. eauto.
Qed.

Lemma add_task_rejects_duplicates_witness :
  add_task 1%nat
    {[ 0%nat := item "x" QA_ENGINEER LOW PENDING []; 1%nat := item "x" QA_ENGINEER LOW PENDING [] ]}
    (mkScheduler [0%nat] ∅ 3)
  = Some (false,
          {[ 0%nat := item "x" QA_ENGINEER LOW PENDING []; 1%nat := item "x" QA_ENGINEER LOW PENDING [] ]},
          mkScheduler [0%nat] ∅ 3).
Proof.
  assert (add_task 0%nat
            {[ 0%nat := item "x" QA_ENGINEER LOW PENDING [];
               1%nat := item "x" QA_ENGINEER LOW PENDING [] ]} new_scheduler
          = Some (true,
                  {[ 0%nat := item "x" QA_ENGINEER LOW PENDING [];
                     1%nat := item "x" QA_ENGINEER LOW PENDING [] ]},
                  mkScheduler [0%nat] ∅ 3)) as E by (vm_compute; reflexivity).
  apply (proj1 (proj2 (add_task_rejects_duplicates _ _ _ _ _ _ E)) 1%nat).
  vm_compute. reflexivity.
Defined.

Lemma task_status_value_inj s1 s2 :
  task_status_value s1 = task_status_value s2 → s1 = s2.
Proof. by destruct s1, s2. Qed.

Lemma count_status_fold st (queued : list Task) (counts : gmap string Z) :
  default 0 (foldl count_status counts queued !! task_status_value st)
  = default 0 (counts !! task_status_value st)
    + Z.of_nat (length (filter (λ t, status t = st) queued)).
Proof.
  revert counts. induction queued as [|t queued IH]; intros counts; simpl; [lia|].
  rewrite IH, filter_cons. unfold count_status.
  destruct (decide (status t = st)) as [->|Hne].
  - rewrite lookup_insert_eq. simpl. lia.
  - rewrite lookup_insert_ne; [done|]. intros Heq. by apply Hne, task_status_value_inj.
Qed.

Lemma count_status_keys (queued : list Task) (counts : gmap string Z) k :
  is_Some (foldl count_status counts queued !! k)
  ↔ is_Some (counts !! k) ∨ ∃ t, t ∈ queued ∧ task_status_value (status t) = k.
Proof.
  revert counts. induction queued as [|t queued IH]; intros counts; simpl.
  - split; [by left|]. intros [H|(t & Hin & _)]; [done|]. by apply elem_of_nil in Hin.
  - rewrite IH. unfold count_status.
    destruct (decide (task_status_value (status t) = k)) as [Heq|Hne].
    + rewrite Heq, lookup_insert_eq. split; [|eauto].
      intros _. right. exists t. split; [constructor|done].
    + rewrite lookup_insert_ne by done. split.
      * intros [H|(t' & Hin & Hk)]; [by left|]. right. exists t'.
        split; [by apply list_elem_of_further|done].
      * intros [H|(t' & [->|Hin]%elem_of_cons & Hk)]; [by left|done|]. right. eauto.
Qed.

(** X19. In the statistics, [total_tasks] is the length of the queue,
    [status_distribution] gives for each status the number of queued items in
    it (a status no item is in has no entry), [ready_tasks] is the number
    under ["ready"], and the counters are reported as they are. *)
Theorem schedule_stats_count_the_queue
    (σ : Store) (s : TaskScheduler) (stats : ScheduleStats) :
  get_schedule_stats σ s = Some stats →
  ∃ queued,
    mapM (σ !!.) (task_queue s) = Some queued
    ∧ total_tasks stats = length queued
    ∧ (∀ st, default 0 (status_distribution stats !! task_status_value st)
             = Z.of_nat (length (filter (λ t, status t = st) queued)))
    ∧ (∀ st, is_Some (status_distribution stats !! task_status_value st)
             ↔ ∃ t, t ∈ queued ∧ status t = st)
    ∧ Z.of_nat (ready_tasks stats)
      = default 0 (status_distribution stats !! "ready")
    ∧ stats_agent_loads stats = agent_loads s.
Proof.
  unfold get_schedule_stats.
  destruct (mapM _ _) as [queued|] eqn:Hq; simpl; [|done].
  intros [= <-]. exists queued. simpl. split; [done|].
  split; [by rewrite (length_mapM _ _ _ Hq)|].
  split; [intros st; by rewrite count_status_fold, lookup_empty|].
  split.
  - intros st. rewrite count_status_keys, lookup_empty. split.
    + intros [[? H]|(t & Hin & Hk)]; [done|]. exists t. split; [done|].
      by apply task_status_value_inj.
    + intros (t & Hin & <-). right. eauto.
  - split; [|done]. change "ready" with (task_status_value READY).
    by rewrite count_status_fold, lookup_empty.
Qed.

Lemma schedule_stats_count_the_queue_witness :
  ∃ stats queued,
    get_schedule_stats three_items (mkScheduler [0%nat; 1%nat; 2%nat] ∅ 3) = Some stats
    ∧ mapM (three_items !!.) [0%nat; 1%nat; 2%nat] = Some queued
    ∧ default 0 (status_distribution stats !! "pending")
      = Z.of_nat (length (filter (λ t, status t = PENDING) queued)).
Proof.
  destruct (get_schedule_stats three_items (mkScheduler [0%nat; 1%nat; 2%nat] ∅ 3))
    as [stats|] eqn:E; [|vm_compute in E; discriminate E].
  destruct (schedule_stats_count_the_queue _ _ _ E) as (queued & Hq & _ & Hcount & _).
  exists stats, queued. split; [reflexivity|]. split; [exact Hq|].
  exact (Hcount PENDING).
Defined.

(** ** Event bus: history, matching, order of delivery *)

(** X20. With a capacity of at least one, the history never holds more than
    [max_history] events after [publish]; what is kept is the newest end of
    the old history followed by the event just published, so the oldest
    events go first; the subscriptions are not touched. *)
Theorem publish_bounds_history (ev : AgentEvent) (b : EventBus) :
  1 ≤ max_history b →
  Z.of_nat (length (event_history (publish ev b).1)) ≤ max_history b
  ∧ event_history (publish ev b).1 `suffix_of` (event_history b ++ [ev])
  ∧ last (event_history (publish ev b).1) = Some ev
  ∧ subscribers (publish ev b).1 = subscribers b.
Proof.
  intros Hmax. unfold publish. simpl. case_bool_decide as Hlen.
  - unfold slice_from. rewrite bool_decide_eq_true_2 by lia.
    rewrite length_app in Hlen. simpl in Hlen.
    set (n := Z.to_nat (Z.max 0 (Z.of_nat (length (event_history b ++ [ev]))
                                 + - max_history b))).
    assert (n ≤ length (event_history b))%nat as Hn
      by (subst n; rewrite length_app; simpl; lia).
    split; [|split; [|split; [|done]]].
    + rewrite length_drop. subst n. rewrite length_app. simpl. lia.
    + apply suffix_drop.
    + rewrite drop_app_le by done. apply last_snoc.
  - split; [lia|]. split; [done|]. split; [apply last_snoc|done].
Qed.

Lemma publish_bounds_history_witness :
  Z.of_nat (length (event_history
    (publish (mkEvent TASK_FAILED QA_ENGINEER None ∅ None 3)
       (mkEventBus [] [mkEvent TASK_STARTED QA_ENGINEER None ∅ None 1;
                       mkEvent TASK_BLOCKED QA_ENGINEER None ∅ None 2] 2)).1)) ≤ 2.
Proof.
  apply (publish_bounds_history (mkEvent TASK_FAILED QA_ENGINEER None ∅ None 3)
           (mkEventBus [] [mkEvent TASK_STARTED QA_ENGINEER None ∅ None 1;
                           mkEvent TASK_BLOCKED QA_ENGINEER None ∅ None 2] 2)).
  simpl. lia.
Defined.

(** X21. A capacity of zero does not switch the history off: the slice
    [history[-0:]] is the whole list, so with [max_history = 0] every
    published event is kept and nothing is ever dropped. *)
Theorem zero_capacity_keeps_everything (ev : AgentEvent) (b : EventBus) :
  max_history b = 0 →
  event_history (publish ev b).1 = event_history b ++ [ev].
Proof.
  intros Hmax. unfold publish. simpl. rewrite Hmax.
  rewrite bool_decide_eq_true_2 by (rewrite length_app; simpl; lia).
  reflexivity.
Qed.

Lemma zero_capacity_keeps_everything_witness :
  event_history
    (publish (mkEvent TASK_FAILED QA_ENGINEER None ∅ None 3)
       (mkEventBus [] [mkEvent TASK_STARTED QA_ENGINEER None ∅ None 1] 0)).1
  = [mkEvent TASK_STARTED QA_ENGINEER None ∅ None 1;
     mkEvent TASK_FAILED QA_ENGINEER None ∅ None 3].
Proof.
  apply (zero_capacity_keeps_everything (mkEvent TASK_FAILED QA_ENGINEER None ∅ None 3)
           (mkEventBus [] [mkEvent TASK_STARTED QA_ENGINEER None ∅ None 1] 0)).
  reflexivity.
Defined.

(** X22. [get_recent_events(count)] returns the last [count] events of the
    history, all of them when there are fewer, for [count ≥ 1]; for
    [count = 0] it returns the whole history, not an empty list. *)
Theorem recent_events_are_the_newest (n : Z) (b : EventBus) :
  (1 ≤ n →
     get_recent_events n b `suffix_of` event_history b
     ∧ Z.of_nat (length (get_recent_events n b))
       = Z.min n (Z.of_nat (length (event_history b))))
  ∧ (n = 0 → get_recent_events n b = event_history b).
Proof.
  unfold get_recent_events, slice_from. split.
  - intros Hn. rewrite bool_decide_eq_true_2 by lia.
    split; [apply suffix_drop|]. rewrite length_drop. lia.
  - intros ->. reflexivity.
Qed.

Lemma recent_events_are_the_newest_witness :
  get_recent_events 1
    (mkEventBus [] [mkEvent TASK_STARTED QA_ENGINEER None ∅ None 1;
                    mkEvent TASK_BLOCKED QA_ENGINEER None ∅ None 2] 1000)
  `suffix_of` [mkEvent TASK_STARTED QA_ENGINEER None ∅ None 1;
               mkEvent TASK_BLOCKED QA_ENGINEER None ∅ None 2]
  ∧ get_recent_events 0
      (mkEventBus [] [mkEvent TASK_STARTED QA_ENGINEER None ∅ None 1;
                      mkEvent TASK_BLOCKED QA_ENGINEER None ∅ None 2] 1000)
    = [mkEvent TASK_STARTED QA_ENGINEER None ∅ None 1;
       mkEvent TASK_BLOCKED QA_ENGINEER None ∅ None 2].
Proof.
  split.
  - apply (proj1 (recent_events_are_the_newest 1
             (mkEventBus [] [mkEvent TASK_STARTED QA_ENGINEER None ∅ None 1;
                             mkEvent TASK_BLOCKED QA_ENGINEER None ∅ None 2] 1000))).
    lia.
  - apply (proj2 (recent_events_are_the_newest 0
             (mkEventBus [] [mkEvent TASK_STARTED QA_ENGINEER None ∅ None 1;
                             mkEvent TASK_BLOCKED QA_ENGINEER None ∅ None 2] 1000))).
    reflexivity.
Defined.

Lemma has_key_true k (subs : list (string * list Callback)) :
  has_key k subs = true ↔ k ∈ subs.*1.
Proof. unfold has_key. apply bool_decide_eq_true. Qed.

Lemma matches_wildcard kind : matches "*" kind = true.
Proof.
  unfold matches. change (drop_last "*") with "".
  rewrite startswith_empty. by destruct (String.eqb "*" kind).
Qed.

Lemma elem_of_if_has_key p k (subs : list (string * list Callback)) :
  p ∈ (if has_key k subs then [k] else []) ↔ p = k ∧ k ∈ subs.*1.
Proof.
  destruct (has_key k subs) eqn:Hk.
  - apply has_key_true in Hk. rewrite list_elem_of_singleton. tauto.
  - rewrite elem_of_nil. split; [done|]. intros [_ Hin%has_key_true]. congruence.
Qed.

Lemma elem_of_patterns_to_notify p kind subs :
  p ∈ patterns_to_notify kind subs ↔ p ∈ subs.*1 ∧ matches p kind = true.
Proof.
  unfold patterns_to_notify.
  rewrite !elem_of_app, !elem_of_if_has_key, list_elem_of_filter.
  unfold matches. rewrite orb_true_iff, String.eqb_eq. split.
  - intros [[-> Hin]|[[-> Hin]|[Hm Hin]]].
    + tauto.
    + split; [done|]. right. change (drop_last "*") with "".
      by rewrite startswith_empty.
    + split; [done|]. right. by destruct (_ && _).
  - intros [Hin [->|Hm]]; [tauto|]. right. right. by rewrite Hm.
Qed.

(** X23. [publish] calls a callback under a pattern exactly when the pattern
    is one of the subscribed ones, the callback is subscribed under it, and
    the pattern matches the kind of the event: it is the kind itself, or it
    ends in ["*"] and the rest of it is a prefix of the kind.  No callback
    of a pattern that does not match is called, and none that does is left
    out. *)
Theorem publish_calls_the_matching_subscribers
    (ev : AgentEvent) (b : EventBus) (pattern : string) (cb : Callback) :
  (pattern, cb) ∈ (publish ev b).2
  ↔ pattern ∈ (subscribers b).*1
    ∧ matches pattern (event_type_value (event_type ev)) = true
    ∧ cb ∈ get_subscribers pattern (subscribers b).
Proof.
  simpl. unfold notifications. rewrite list_elem_of_bind. split.
  - intros (p & Hin & Hp). apply list_elem_of_bind in Hin as (c & Hc & Hcb).
    apply list_elem_of_singleton in Hc as [= -> ->].
    apply elem_of_patterns_to_notify in Hp as [H1 H2]. done.
  - intros (Hkey & Hm & Hcb). exists pattern. split.
    + apply list_elem_of_bind. exists cb. split; [constructor|done].
    + by apply elem_of_patterns_to_notify.
Qed.

Lemma event_kind_is_not_a_pattern e :
  endswith "*" (event_type_value e) = false ∧ event_type_value e ≠ "*".
Proof. destruct e; split; first [ by vm_compute | discriminate ]. Qed.

Lemma get_subscribers_no_key k (subs : list (string * list Callback)) :
  k ∉ subs.*1 → get_subscribers k subs = [].
Proof.
  induction subs as [|[k' cbs] subs IH]; simpl; [done|].
  intros [Hne Hk]%not_elem_of_cons.
  destruct (String.eqb_spec k k') as [->|_]; [done|]. by apply IH.
Qed.

Lemma calls_under_other_patterns k (subs : list (string * list Callback)) ps :
  k ∉ ps →
  filter (λ c : Invocation, c.1 = k)
         (p ← ps; callback ← get_subscribers p subs; [(p, callback)]) = [].
Proof.
  induction ps as [|p ps IH]; [done|].
  intros [Hne Hk]%not_elem_of_cons. rewrite bind_cons, filter_app.
  apply app_nil. split; [|exact (IH Hk)].
  generalize (get_subscribers p subs) as l.
  induction l as [|c l IHl]; [done|]. rewrite bind_cons, filter_app.
  apply app_nil. split; [|exact IHl].
  simpl. rewrite filter_cons. simpl. by destruct (decide (p = k)).
Qed.

Lemma calls_under_pattern k (cbs : list Callback) :
  filter (λ c : Invocation, c.1 = k) (callback ← cbs; [(k, callback)])
  = (λ c, (k, c)) <$> cbs.
Proof.
  induction cbs as [|c l IH]; [done|].
  rewrite bind_cons, filter_app, fmap_cons. simpl.
  rewrite filter_cons. simpl. destruct (decide (k = k)); [|done].
  simpl. f_equal. exact IH.
Qed.

Lemma calls_of_kind kind (subs : list (string * list Callback)) :
  endswith "*" kind = false → kind ≠ "*" →
  filter (λ c : Invocation, c.1 = kind) (notifications kind subs)
  = (λ c, (kind, c)) <$> get_subscribers kind subs.
Proof.
  intros Hend Hstar. unfold notifications, patterns_to_notify.
  rewrite !bind_app, !filter_app.
  rewrite (calls_under_other_patterns kind subs (filter _ _)).
  2:{ intros [Hp _]%list_elem_of_filter. by rewrite Hend in Hp. }
  rewrite (calls_under_other_patterns kind subs (if has_key "*" subs then _ else _)).
  2:{ destruct (has_key "*" subs); [|by intros ?%elem_of_nil].
      by intros ->%list_elem_of_singleton. }
  rewrite !app_nil_r. destruct (has_key kind subs) eqn:Hk.
  - rewrite bind_cons. change ([] ≫= _) with (@nil Invocation).
    rewrite app_nil_r. apply calls_under_pattern.
  - rewrite get_subscribers_no_key; [done|].
    intros Hin%has_key_true. congruence.
Qed.

(** X24. The callbacks subscribed under the exact kind of an event are
    called for it once per subscription, in the order in which they
    subscribed, whatever else is subscribed. *)
Theorem exact_subscribers_called_once_in_order (ev : AgentEvent) (b : EventBus) :
  filter (λ c : Invocation, c.1 = event_type_value (event_type ev)) (publish ev b).2
  = (λ c, (event_type_value (event_type ev), c))
      <$> get_subscribers (event_type_value (event_type ev)) (subscribers b).
Proof.
  simpl. destruct (event_kind_is_not_a_pattern (event_type ev)) as [H1 H2].
  by apply calls_of_kind.
Qed.

Lemma get_subscribers_append k cb (subs : list (string * list Callback)) p :
  get_subscribers p (append_subscriber k cb subs)
  = if String.eqb p k then get_subscribers p subs ++ [cb] else get_subscribers p subs.
Proof.
  induction subs as [|[k' cbs] subs IH]; simpl.
  - by destruct (String.eqb p k).
  - destruct (String.eqb_spec k k') as [->|Hne]; simpl.
    + by destruct (String.eqb_spec p k').
    + rewrite IH. destruct (String.eqb_spec p k') as [->|Hne'];
        [|done]. destruct (String.eqb_spec k' k) as [->|_]; done.
Qed.

(** X25. [subscribe] puts the callback last under its pattern and leaves
    the other patterns, the history and the capacity alone; so a callback
    that subscribes under the exact kind of an event is called for it after
    all those that had subscribed under that kind before. *)
Theorem subscribe_appends
    (pattern : string) (cb : Callback) (b : EventBus) (ev : AgentEvent) :
  get_subscribers pattern (subscribers (subscribe pattern cb b))
  = get_subscribers pattern (subscribers b) ++ [cb]
  ∧ (∀ p, p ≠ pattern →
          get_subscribers p (subscribers (subscribe pattern cb b))
          = get_subscribers p (subscribers b))
  ∧ event_history (subscribe pattern cb b) = event_history b
  ∧ max_history (subscribe pattern cb b) = max_history b
  ∧ (pattern = event_type_value (event_type ev) →
       filter (λ c : Invocation, c.1 = pattern) (publish ev (subscribe pattern cb b)).2
       = filter (λ c : Invocation, c.1 = pattern) (publish ev b).2 ++ [(pattern, cb)]).
Proof.
  split; [|split; [|split; [done|split; [done|]]]].
  - simpl. by rewrite get_subscribers_append, String.eqb_refl.
  - intros p Hne. simpl. rewrite get_subscribers_append.
    by destruct (String.eqb_spec p pattern).
  - intros ->. destruct (event_kind_is_not_a_pattern (event_type ev)) as [H1 H2].
    simpl. rewrite !calls_of_kind by done. simpl.
    by rewrite get_subscribers_append, String.eqb_refl, fmap_app.
Qed.

Lemma subscribe_appends_witness :
  filter (λ c : Invocation, c.1 = "task_failed")
    (publish (mkEvent TASK_FAILED QA_ENGINEER None ∅ None 3)
       (subscribe "task_failed" 7%nat (subscribe "task_failed" 5%nat new_event_bus))).2
  = filter (λ c : Invocation, c.1 = "task_failed")
      (publish (mkEvent TASK_FAILED QA_ENGINEER None ∅ None 3)
         (subscribe "task_failed" 5%nat new_event_bus)).2
    ++ [("task_failed", 7%nat)].
Proof.
  apply (proj2 (proj2 (proj2 (proj2
           (subscribe_appends "task_failed" 7%nat
              (subscribe "task_failed" 5%nat new_event_bus)
              (mkEvent TASK_FAILED QA_ENGINEER None ∅ None 3)))))).
  reflexivity.
Defined.

(** ** Coordinator: what is counted, what is delivered *)

(** X26. The loop over the results of a round counts an item as completed
    whenever the executor reported success for it: the items appended to
    [completed_tasks] are those of the successful results, in order, whether
    [complete_task] accepted the report or not, and the scheduler's queue and
    ceiling are not touched. *)
Theorem report_results_counts_successes
    (now : Z) (sid : string) (results : list (loc * Outcome))
    (σ σ' : Store) (s s' : TaskScheduler) (bus bus' : EventBus)
    (completed completed' : list loc) (calls : list Invocation) :
  report_results now sid results σ s bus completed
  = Some (σ', s', bus', completed', calls) →
  completed'
  = completed ++ omap (λ x, match x.2 with Success _ => Some x.1 | Failure _ => None end)
                      results
  ∧ task_queue s' = task_queue s
  ∧ max_concurrent_tasks s' = max_concurrent_tasks s.
Proof.
  revert σ σ' s s' bus bus' completed completed' calls.
  induction results as [|[r [res|err]] results IH];
    intros σ σ' s s' bus bus' completed completed' calls; simpl.
  - intros [= <- <- _ <- _]. by rewrite app_nil_r.
  - destruct (complete_task now r (Some res) σ s) as [[[b σ1] s1]|] eqn:Hc; [simpl|done].
    destruct (σ1 !! r) as [t|]; [simpl|done].
    destruct (report_results _ _ _ _ _ _ _) as [[[[[σ2 s2] bus2] completed2] calls2]|]
      eqn:Hrest; [simpl|done].
    intros [= <- <- _ <- _]. apply IH in Hrest as (-> & Hq & Hm).
    rewrite <- app_assoc. split; [done|].
    unfold complete_task in Hc. destruct (σ !! r) as [t0|]; simpl in Hc; [|done].
    destruct (complete now (Some res) t0) as [[] t0']; injection Hc as <- <- <-;
      simpl in *; by rewrite Hq, Hm.
  - destruct (σ !! r) as [t|]; [simpl|done].
    destruct (fail now err t) as [b t']. apply IH.
Qed.

Lemma report_results_counts_successes_witness :
  ∃ σ' s' bus',
    report_results 4 "s1" [(0%nat, Success {[ "output" := "done" ]}); (1%nat, Failure "boom")]
      (<[0%nat := item "a" PROJECT_MANAGER MEDIUM READY []]>
         (<[1%nat := item "b" ARCHITECT HIGH READY ["a"]]> three_items))
      (mkScheduler [0%nat; 1%nat; 2%nat] ∅ 3) new_event_bus []
    = Some (σ', s', bus', [0%nat], [])
    ∧ status <$> σ' !! 0%nat = Some READY
    ∧ status <$> σ' !! 1%nat = Some FAILED.
Proof.
  destruct (report_results 4 "s1"
              [(0%nat, Success {[ "output" := "done" ]}); (1%nat, Failure "boom")]
              (<[0%nat := item "a" PROJECT_MANAGER MEDIUM READY []]>
                 (<[1%nat := item "b" ARCHITECT HIGH READY ["a"]]> three_items))
              (mkScheduler [0%nat; 1%nat; 2%nat] ∅ 3) new_event_bus [])
    as [[[[[σ' s'] bus'] completed'] calls]|] eqn:E; [|vm_compute in E; discriminate E].
  destruct (report_results_counts_successes _ _ _ _ _ _ _ _ _ _ _ _ E) as (Hc & _).
  simpl in Hc. subst completed'.
  exists σ', s', bus'.
  assert (calls = [] ∧ status <$> σ' !! 0%nat = Some READY
          ∧ status <$> σ' !! 1%nat = Some FAILED) as (-> & H0 & H1).
  { vm_compute in E. injection E as <- _ _ <-. repeat split; vm_compute; reflexivity. }
  split; [reflexivity|]. split; [exact H0 | exact H1].
Defined.

Lemma generate_deliverables_snoc tasks t :
  generate_deliverables (tasks ++ [t]) = add_deliverable (generate_deliverables tasks) t.
Proof. unfold generate_deliverables. apply foldl_snoc. Qed.

(** X27. The deliverables list the completed items by role, in order:
    project-manager and architect items under [documents], back-end and
    front-end items under [code_artifacts], QA items under [test_reports].
    Nothing is ever put under [deployment_configs], and the items of the
    four other roles appear nowhere. *)
Theorem deliverables_by_role (completed_tasks : list Task) :
  let d := generate_deliverables completed_tasks in
  dl_task_id <$> documents d
  = task_id <$> filter (λ t, agent_role t ∈ [PROJECT_MANAGER; ARCHITECT]) completed_tasks
  ∧ dl_task_id <$> code_artifacts d
    = task_id <$> filter (λ t, agent_role t ∈ [BACKEND_DEVELOPER; FRONTEND_DEVELOPER])
                         completed_tasks
  ∧ dl_task_id <$> test_reports d
    = task_id <$> filter (λ t, agent_role t = QA_ENGINEER) completed_tasks
  ∧ deployment_configs d = [].
Proof.
  simpl. induction completed_tasks as [|t tasks IH] using rev_ind; [done|].
  destruct IH as (Hdoc & Hcode & Htest & Hdep).
  rewrite generate_deliverables_snoc, !filter_app, !fmap_app.
  rewrite !(filter_cons _ t), !filter_nil.
  unfold add_deliverable. destruct (agent_role t) eqn:Hrole; simpl;
    rewrite ?fmap_app, Hdoc, Hcode, Htest, Hdep;
    repeat match goal with
           | |- context [decide ?P] =>
               destruct (decide P) as [Hd|Hd];
               [ try (absurd_by_evaluation Hd); try discriminate Hd
               | try (exfalso; apply Hd; by_evaluation); try done ]
           end; simpl; rewrite ?app_nil_r; done.
Qed.

(** ** Wiring the items of a project *)

Lemma add_dependency_at_wired tasks0 i j ts :
  (j < i)%nat → (j < length tasks0)%nat →
  wired tasks0 ts → wired tasks0 (add_dependency_at i (id_at ts j) ts).
Proof.
  intros Hji Hj (Hlen & Hids & Hdeps). unfold add_dependency_at.
  destruct (ts !! i) as [ti|] eqn:Hi; [|done].
  assert (task_id (add_dependency (id_at ts j) ti).2 = task_id ti) as Hid.
  { unfold add_dependency. by destruct (_ && _). }
  split; [by rewrite length_insert|]. split.
  - intros k. rewrite <- Hids. unfold id_at.
    destruct (decide (i = k)) as [<-|Hne].
    + rewrite list_lookup_insert_eq by (by eapply lookup_lt_Some). rewrite Hi.
      exact Hid.
    + by rewrite list_lookup_insert_ne.
  - intros k t dep Hk Hdep. destruct (decide (i = k)) as [<-|Hne].
    + rewrite list_lookup_insert_eq in Hk by (by eapply lookup_lt_Some).
      injection Hk as <-. unfold add_dependency in Hdep.
      destruct (_ && _); simpl in Hdep; [|by eapply Hdeps].
      apply elem_of_app in Hdep as [Hdep|Hdep%list_elem_of_singleton];
        [by eapply Hdeps|].
      exists j. by rewrite <- Hids.
    + rewrite list_lookup_insert_ne in Hk by done. by eapply Hdeps.
Qed.

Lemma elem_of_range a b i : i ∈ range a b ↔ (a ≤ i < b)%nat.
Proof. unfold range. rewrite elem_of_seq. lia. Qed.

(** X28. The wiring at the end of [decompose_project] builds no cycle: when
    the items start without dependencies, every dependency an item ends up
    with is the id of an item that comes before it in the list; ids and the
    number of items are unchanged. *)
Theorem wire_dependencies_acyclic (tasks : list Task) :
  Forall (λ t, dependencies t = []) tasks →
  length (wire_dependencies tasks) = length tasks
  ∧ (∀ k, id_at (wire_dependencies tasks) k = id_at tasks k)
  ∧ ∀ k t dep, wire_dependencies tasks !! k = Some t → dep ∈ dependencies t →
               ∃ j, (j < k)%nat ∧ (j < length tasks)%nat ∧ id_at tasks j = dep.
Proof.
  intros Hnone.
  assert (wired tasks tasks) as Hw.
  { split; [done|]. split; [done|]. intros k t dep Hk Hdep.
    rewrite Forall_forall in Hnone.
    rewrite (Hnone t) in Hdep by (by eapply list_elem_of_lookup_2).
    by apply elem_of_nil in Hdep. }
  change (wired tasks (wire_dependencies tasks)).
  unfold wire_dependencies. case_bool_decide as Hn; [|done].
  set (n := length tasks) in *.
  set (ts1 := add_dependency_at 1 (id_at tasks 0) tasks).
  assert (wired tasks ts1) as Hw1 by (apply add_dependency_at_wired; [lia|lia|done]).
  set (ts2 := foldl _ ts1 (range 2 (n - 2))).
  assert (wired tasks ts2) as Hw2.
  { subst ts2.
    assert (∀ l ts, Forall (λ i, (2 ≤ i < n - 2)%nat) l → wired tasks ts →
                    wired tasks (foldl (λ ts' i, add_dependency_at i (id_at ts' 1) ts') ts l))
      as Hloop.
    { induction l as [|i l IHl]; intros ts Hl Hts; simpl; [done|].
      apply Forall_cons in Hl as [Hi Hl]. apply IHl; [done|].
      apply add_dependency_at_wired; [lia|fold n; lia|done]. }
    apply Hloop; [|done]. apply Forall_forall. intros i Hi%elem_of_range. lia. }
  assert (∀ i l ts, (n - 2 ≤ i)%nat → Forall (λ j, (2 ≤ j < n - 2)%nat) l →
                    wired tasks ts →
                    wired tasks (foldl (λ ts' j, add_dependency_at i (id_at ts' j) ts') ts l))
    as Hinner.
  { intros i. induction l as [|j l IHl]; intros ts Hi Hl Hts; simpl; [done|].
    apply Forall_cons in Hl as [Hj Hl]. apply IHl; [done|done|].
    apply add_dependency_at_wired; [lia|fold n; lia|done]. }
  assert (∀ l ts, Forall (λ i, (n - 2 ≤ i)%nat) l → wired tasks ts →
                  wired tasks
                    (foldl (λ ts' i,
                              foldl (λ ts'' j, add_dependency_at i (id_at ts'' j) ts'') ts'
                                    (range 2 (n - 2))) ts l)) as Houter.
  { induction l as [|i l IHl]; intros ts Hl Hts; simpl; [done|].
    apply Forall_cons in Hl as [Hi Hl]. apply IHl; [done|].
    apply Hinner; [done| |done]. apply Forall_forall. intros j Hj%elem_of_range. lia. }
  apply Houter; [|done]. apply Forall_forall. intros i Hi%elem_of_range. lia.
Qed.

Lemma wire_dependencies_acyclic_witness :
  length (wire_dependencies
            [item "pm" PROJECT_MANAGER HIGH PENDING []; item "ar" ARCHITECT HIGH PENDING [];
             item "be" BACKEND_DEVELOPER MEDIUM PENDING []; item "q1" QA_ENGINEER LOW PENDING [];
             item "q2" QA_ENGINEER LOW PENDING []])
  = 5%nat.
Proof.
  apply (wire_dependencies_acyclic
           [item "pm" PROJECT_MANAGER HIGH PENDING []; item "ar" ARCHITECT HIGH PENDING [];
            item "be" BACKEND_DEVELOPER MEDIUM PENDING []; item "q1" QA_ENGINEER LOW PENDING [];
            item "q2" QA_ENGINEER LOW PENDING []]).
  repeat constructor.
Defined.

(** ** A project run, seen from the items *)

Lemma coord_step_never_runs m c c' :
  coord_inv m c →
  (∀ r t, c_store c !! r = Some t → status t ∈ [PENDING; READY; FAILED]) →
  coord_step c c' →
  ∀ r t, c_store c' !! r = Some t → status t ∈ [PENDING; READY; FAILED].
Proof.
  intros (Hhanded & _ & _) Hst Hstep.
  unfold handed_not_pending in Hhanded. rewrite Forall_forall in Hhanded.
  destruct Hstep as [r0 b σ' s' Hadd | completed ready σ' s' Hready
                    | now r0 b σ' s' Hin Hassign | now r0 res b σ' s' Hin Hcomplete
                    | now r0 msg t0 b t0' Hin Hr Hfail]; simpl; intros r t Hl.
  - unfold add_task in Hadd. destruct (c_store c !! r0); simpl in Hadd; [|done].
    destruct (negb _); injection Hadd as <- <- <-; by eapply Hst.
  - apply get_ready_tasks_frame in Hready as (Hnew & Hkeep & _).
    destruct (decide (r ∈ ready)) as [Hr|Hr].
    + rewrite (Hnew r Hr) in Hl. destruct (c_store c !! r); simpl in Hl; [|done].
      injection Hl as <-. simpl. by_evaluation.
    + rewrite (Hkeep r Hr) in Hl. by eapply Hst.
  - destruct (Hhanded r0 Hin) as (t0 & Hl0 & Hs0).
    rewrite (assign_task_not_pending now r0 None _ _ t0 Hl0 Hs0) in Hassign.
    injection Hassign as <- <- <-. by eapply Hst.
  - unfold complete_task in Hcomplete.
    destruct (c_store c !! r0) as [t0|] eqn:Hl0; simpl in Hcomplete; [|done].
    rewrite complete_not_in_progress in Hcomplete.
    + injection Hcomplete as <- <- <-. by eapply Hst.
    + intros Hs. specialize (Hst r0 t0 Hl0). rewrite Hs in Hst. absurd_by_evaluation Hst.
  - destruct (decide (r0 = r)) as [->|Hne].
    + rewrite lookup_insert_eq in Hl. injection Hl as <-.
      unfold fail in Hfail. destruct (bool_decide _); injection Hfail as <- <-.
      * by eapply Hst.
      * simpl. by_evaluation.
    + rewrite lookup_insert_ne in Hl by done. by eapply Hst.
Qed.

Lemma coord_reachable_never_runs σ0 m c :
  (∀ r t, σ0 !! r = Some t → status t ∈ [PENDING; READY; FAILED]) →
  coord_reachable σ0 m c →
  ∀ r t, c_store c !! r = Some t → status t ∈ [PENDING; READY; FAILED].
Proof.
  intros H0. induction 1 as [|c c' Hreach IH Hstep]; [done|].
  eapply coord_step_never_runs; [|exact IH|exact Hstep].
  by eapply coord_reachable_inv.
Qed.

(** X29. A project run on an orchestrator whose scheduler is new leaves no
    item running or completed: if no item was running, completed, blocked or
    cancelled before [execute_project], then afterwards every item is
    [PENDING], [READY] or [FAILED], and every in-flight counter is zero,
    whatever the executor answered and whatever the summary reports as
    completed. *)
Theorem execute_project_completes_no_item
    (start_time now end_time : Z) (ex : Executor) (sid name : string) (tasks : list loc)
    (σ σ' : Store) (o o' : AgentOrchestrator) (summary : Summary)
    (calls : list Invocation) (m : Z) :
  scheduler o = mkScheduler [] ∅ m →
  (∀ r t, σ !! r = Some t → status t ∈ [PENDING; READY; FAILED]) →
  execute_project start_time now end_time ex sid name tasks σ o
  = Some (summary, σ', o', calls) →
  (∀ r t, σ' !! r = Some t → status t ∈ [PENDING; READY; FAILED])
  ∧ (∀ role, load (agent_loads (scheduler o')) role = 0)
  ∧ sum_total_tasks summary = length tasks.
Proof.
  intros Hfresh Hst Hrun.
  assert (coord_reachable σ m (mkCoord σ (scheduler o) [])) as Hinit
    by (rewrite Hfresh; apply reach_init).
  destruct (execute_project_reachable σ m _ _ _ _ _ _ _ _ _ _ _ _ _ _ Hinit Hrun)
    as [handed Hreach].
  split; [|split].
  - intros r t Hl. by apply (coord_reachable_never_runs σ m _ Hst Hreach r t).
  - by destruct (coord_reachable_inv σ m _ Hreach) as (_ & Hzero & _).
  - revert Hrun. unfold execute_project. generalize 20%nat as max_iterations.
    intros max_iterations.
    destruct (publish _ (event_bus o)) as [bus0 calls0].
    destruct (mapM _ tasks) as [items|]; [simpl|done].
    destruct (add_tasks tasks σ (scheduler o)) as [[σ1 s1]|]; [simpl|done].
    destruct (rounds max_iterations now ex sid tasks σ1 s1 bus0 [])
      as [[[[[σ2 s2] bus2] completed] calls2]|]; [simpl|done].
    by intros [= <- _ _ _].
Qed.

Lemma execute_project_completes_no_item_witness :
  ∃ summary σ' o' calls t,
    execute_project 0 1 2 always_succeeds "s1" "demo" [0; 1; 2]%nat three_items
      new_orchestrator = Some (summary, σ', o', calls)
    ∧ sum_tasks_completed summary = 3%nat
    ∧ σ' !! 0%nat = Some t ∧ status t ∈ [PENDING; READY; FAILED].
Proof.
  destruct (execute_project 0 1 2 always_succeeds "s1" "demo" [0; 1; 2]%nat three_items
              new_orchestrator) as [[[[summary σ'] o'] calls]|] eqn:E;
    [|vm_compute in E; discriminate E].
  assert (map_Forall (λ _ t, status t ∈ [PENDING; READY; FAILED]) three_items) as Hst
    by by_evaluation.
  destruct (execute_project_completes_no_item 0 1 2 always_succeeds "s1" "demo"
              [0; 1; 2]%nat three_items σ' new_orchestrator o' summary calls 3
              eq_refl Hst E) as (Hafter & _).
  assert (sum_tasks_completed summary = 3%nat ∧ is_Some (σ' !! 0%nat)) as [Hsum [t Ht]].
  { vm_compute in E. injection E as <- <- _ _. split; [reflexivity|].
    eexists. vm_compute. reflexivity. }
  exists summary, σ', o', calls, t. split; [reflexivity|]. split; [exact Hsum|].
  split; [exact Ht|]. exact (Hafter 0%nat t Ht).
Defined.
